(** * delivery_multi_destination: carriers that route to destination children

    A shallow embedding of [models/delivery_carrier.py], the extension of
    [delivery.carrier] that lets one carrier stand for a grid of
    destination-specific children, and the properties of its field
    synchronisation, listing filter and dispatch methods.

    Records are identified by their database id ([nat]); a recordset is the
    list of its ids, in order.  The rows of [delivery.carrier] live in a
    table.  Everything the module inherits from the host framework (address
    matching, the inherited [available_carriers], [rate_shipment],
    [send_shipping], [search] and [name_search]) is an interface whose
    implementation is left open. *)

From Stdlib Require Import String List Bool Arith ZArith QArith.
From stdpp Require Import base gmap strings.
Import ListNotations.

Local Open Scope string_scope.
Local Open Scope list_scope.

(** ** Python values and control outcomes *)

(** The values the module stores in the context and in domain leaves. *)
Inductive value :=
| VNone
| VBool (b : bool)
| VInt (z : Z)
| VStr (s : string).

(** Python truthiness. *)
Definition truthy (v : value) : bool :=
  match v with
  | VNone => false
  | VBool b => b
  | VInt z => negb (Z.eqb z 0)
  | VStr s => negb (String.eqb s "")
  end.

(** Instances of Python's [Exception], the class [except Exception] names. *)
Inductive exception :=
| ValidationError (msg : string)
| UserError (msg : string)
| OtherError (cls msg : string).

(** Exceptions that derive from [BaseException] only; [except Exception]
    does not catch them. *)
Inductive base_exception :=
| KeyboardInterrupt
| SystemExit (code : Z)
| GeneratorExit.

(** How a call ends. *)
Inductive result (A : Type) :=
| Return (a : A)
| Raise (e : exception)
| Abort (b : base_exception).

Arguments Return {A} a.
Arguments Raise {A} e.
Arguments Abort {A} b.

Definition result_map {A B : Type} (f : A -> B) (r : result A) : result B :=
  match r with
  | Return a => Return (f a)
  | Raise e => Raise e
  | Abort b => Abort b
  end.

(** ** Data model *)

(** [destination_type]: the two selection values. *)
Inductive destination := one | multi.

Definition destination_eqb (a b : destination) : bool :=
  match a, b with
  | one, one | multi, multi => true
  | _, _ => false
  end.

(** A row of [delivery.carrier].  [delivery_type] is an open selection (other
    modules add values), hence a string; [destination_type] is [None] when the
    field reads [False]; a many2one is the id it points to, or [None]. *)
Record carrier := {
  delivery_type : string;
  destination_type : option destination;
  company_id : option nat;
  fixed_price : Q;
  child_ids : list nat;
  parent_id : option nat;
}.

(** [carrier.destination_type == v] *)
Definition destination_type_is (c : carrier) (v : destination) : bool :=
  match destination_type c with
  | Some d => destination_eqb d v
  | None => false
  end.

Definition set_destination_type (v : option destination) (c : carrier) : carrier :=
  {| delivery_type := delivery_type c;
     destination_type := v;
     company_id := company_id c;
     fixed_price := fixed_price c;
     child_ids := child_ids c;
     parent_id := parent_id c |}.

Definition set_delivery_type (v : string) (c : carrier) : carrier :=
  {| delivery_type := v;
     destination_type := destination_type c;
     company_id := company_id c;
     fixed_price := fixed_price c;
     child_ids := child_ids c;
     parent_id := parent_id c |}.

(** The carrier table and the assignment of a row. *)
Definition table := nat -> carrier.

Definition assign (tbl : table) (id : nat) (row : carrier) : table :=
  fun k => if Nat.eqb k id then row else tbl k.

(** A stock picking: its id, company and recipient.  Its [carrier_id] is
    mutable and lives in the store. *)
Record picking := {
  picking_id : nat;
  picking_company_id : option nat;
  partner_id : nat;
}.

(** A sale order, as far as the router reads it. *)
Record order := {
  order_id : nat;
  partner_shipping_id : nat;
}.

(** One dictionary of a booking result. *)
Record shipping_result := {
  exact_price : Q;
  tracking_number : option string;
}.

(** A search domain: operators and leaves [(field, operator, value)]. *)
Inductive domain_item :=
| Operator (op : string)
| Leaf (field op : string) (v : value).

Definition domain := list domain_item.

(** ** Field synchronisation *)

(** Body of the loop of [_compute_destination_type]. *)
Definition compute_destination_type_row (c : carrier) : carrier :=
  if String.eqb (delivery_type c) "base_on_destination"
  then set_destination_type (Some multi) c
  else set_destination_type (Some one) c.

(** Body of the loop of [_inverse_destination_type]. *)
Definition inverse_destination_type_row (c : carrier) : carrier :=
  if destination_type_is c multi
  then set_delivery_type "base_on_destination" c
  else if String.eqb (delivery_type c) "base_on_destination"
       then set_delivery_type "fixed" c
       else c.

(** [for carrier in self: body] *)
Fixpoint for_each (body : carrier -> carrier) (self : list nat) (tbl : table) : table :=
  match self with
  | [] => tbl
  | id :: rest => for_each body rest (assign tbl id (body (tbl id)))
  end.

Definition _compute_destination_type (self : list nat) (tbl : table) : table :=
  for_each compute_destination_type_row self tbl.

Definition _inverse_destination_type (self : list nat) (tbl : table) : table :=
  for_each inverse_destination_type_row self tbl.

(** A write to one of the two synchronised fields, as the framework runs it:
    a write to [delivery_type] stores the value and recomputes the dependent
    [destination_type]; a write to [destination_type] stores the value and
    calls the inverse. *)
Inductive field_write :=
| WriteDeliveryType (v : string)
| WriteDestinationType (v : option destination).

Definition write (self : list nat) (w : field_write) (tbl : table) : table :=
  match w with
  | WriteDeliveryType v =>
      _compute_destination_type self (for_each (set_delivery_type v) self tbl)
  | WriteDestinationType v =>
      _inverse_destination_type self (for_each (set_destination_type v) self tbl)
  end.

(** Successive writes, each on its own recordset. *)
Fixpoint writes (ws : list (list nat * field_write)) (tbl : table) : table :=
  match ws with
  | [] => tbl
  | (self, w) :: rest => writes rest (write self w tbl)
  end.

(** The invariant linking the two fields. *)
Definition synchronised (c : carrier) : Prop :=
  destination_type c = Some multi <-> delivery_type c = "base_on_destination".

(** ** The host framework *)

(** The mutable state the booking code runs in: the [carrier_id] of every
    picking (absent: unset), and whatever else the host keeps. *)
Record store (H : Type) := {
  picking_carrier : gmap nat nat;
  host : H;
}.

Arguments picking_carrier {H} s.
Arguments host {H} s.

(** What [search] returns: a recordset, or a number when [count] is set. *)
Inductive search_result :=
| Records (ids : list nat)
| Count (n : nat).

(** The environment of a call: the rows of [delivery.carrier], and the
    methods the module reaches through [super()] or calls on records.  [H] is
    the host's own state, [R] the dictionary [rate_shipment] returns. *)
Class Host (H R : Type) := {
  carriers : table;
  _match_address : nat -> nat -> bool;
  super_available_carriers : list nat -> nat -> list nat;
  super_rate_shipment : list nat -> order -> result R;
  super_send_shipping :
    list nat -> list picking -> store H -> store H * result (list shipping_result);
  super_search :
    gmap string value -> option domain -> nat -> option nat -> option string -> bool ->
    search_result;
  super_name_search :
    gmap string value -> string -> option domain -> string -> option nat ->
    list (nat * string);
}.

Section Router.
Context {H R : Type} `{!Host H R}.

(** ** Recordsets *)

(** Reading a scalar field on a recordset: the field of its single record,
    the null value on the empty recordset, [ValueError] otherwise. *)
Definition read_destination_type (self : list nat) : result (option destination) :=
  match self with
  | [] => Return None
  | [id] => Return (destination_type (carriers id))
  | _ => Raise (OtherError "ValueError" "Expected singleton")
  end.

(** [self.child_ids], once [self] is known to hold at most one record.  The
    dispatch methods read it under [with_context(show_children_carriers=True)],
    so that the listing filter below does not hide the children: the stored
    list is what they get. *)
Definition read_child_ids (self : list nat) : list nat :=
  flat_map (fun id => child_ids (carriers id)) self.

(** [bool(recordset)] *)
Definition nonempty {A : Type} (l : list A) : bool :=
  match l with
  | [] => false
  | _ :: _ => true
  end.

(** [OrderedSet(ids)]: first occurrences, in order. *)
Fixpoint ordered_set (seen ids : list nat) : list nat :=
  match ids with
  | [] => seen
  | id :: rest =>
      if existsb (Nat.eqb id) seen
      then ordered_set seen rest
      else ordered_set (seen ++ [id]) rest
  end.

(** [a | b] on recordsets. *)
Definition recordset_or (a b : list nat) : list nat :=
  ordered_set [] (a ++ b).

(** ** Listing filter *)

(** [self.env.context.get(key)] *)
Definition context_get (ctx : gmap string value) (key : string) : value :=
  match ctx !! key with
  | Some v => v
  | None => VNone
  end.

(** The leaf [("parent_id", "=", False)]. *)
Definition no_parent : domain_item := Leaf "parent_id" "=" (VBool false).

Definition search (ctx : gmap string value) (domain : option domain)
    (offset : nat) (limit : option nat) (order : option string) (count : bool)
    : search_result :=
  let domain :=
    if negb (truthy (context_get ctx "show_children_carriers"))
    then
      let domain := match domain with None => [] | Some d => d end in
      Some (domain ++ [no_parent])
    else domain in
  super_search ctx domain offset limit order count.

Definition name_search (ctx : gmap string value) (name : string)
    (args : option domain) (operator : string) (limit : option nat)
    : list (nat * string) :=
  let args :=
    if negb (truthy (context_get ctx "show_children_carriers"))
    then
      let args := match args with None => [] | Some d => d end in
      Some (args ++ [no_parent])
    else args in
  super_name_search ctx name args operator limit.

(** The domain both methods hand to the inherited one by default: the
    caller's, or the empty one, followed by [no_parent]. *)
Definition default_domain (d : option domain) : option domain :=
  Some (match d with None => [] | Some d => d end ++ [no_parent]).

(** Whether a carrier has a parent: the records the leaf [no_parent] rules
    out. *)
Definition is_child (id : nat) : bool :=
  match parent_id (carriers id) with
  | Some _ => true
  | None => false
  end.

(** ** Availability *)

(** The records [available_carriers] hands to the inherited check for one
    carrier of [self]. *)
Definition candidates (carrier : nat) : list nat :=
  if destination_type_is (carriers carrier) one
  then [carrier]
  else child_ids (carriers carrier).

Fixpoint available_loop (self : list nat) (partner : nat) (available : list nat)
    : list nat :=
  match self with
  | [] => available
  | carrier :: rest =>
      let available :=
        if nonempty (super_available_carriers (candidates carrier) partner)
        then recordset_or available [carrier]
        else available in
      available_loop rest partner available
  end.

Definition available_carriers (self : list nat) (partner : nat) : list nat :=
  available_loop self partner [].

(** ** Rate quotation *)

(** The loop over [carrier.child_ids]; falling off its end returns [None]. *)
Fixpoint rate_children (subs : list nat) (o : order) : result (option R) :=
  match subs with
  | [] => Return None
  | subcarrier :: rest =>
      if _match_address subcarrier (partner_shipping_id o)
      then result_map Some (super_rate_shipment [subcarrier] o)
      else rate_children rest o
  end.

Definition rate_shipment (self : list nat) (o : order) : result (option R) :=
  match read_destination_type self with
  | Return d =>
      match d with
      | Some one => result_map Some (super_rate_shipment self o)
      | _ => rate_children (read_child_ids self) o
      end
  | Raise e => Raise e
  | Abort b => Abort b
  end.

(** ** Shipment booking *)

(** [p.carrier_id = id] *)
Definition set_carrier_id (p : picking) (id : nat) (st : store H) : store H :=
  {| picking_carrier := <[picking_id p := id]> (picking_carrier st);
     host := host st |}.

(** [p.carrier_id], read from the store. *)
Definition carrier_id (st : store H) (p : picking) : option nat :=
  picking_carrier st !! picking_id p.

(** [lambda x: not x.company_id or x.company_id == p.company_id] *)
Definition same_company (p : picking) (x : nat) : bool :=
  match company_id (carriers x) with
  | None => true
  | Some c =>
      match picking_company_id p with
      | Some c' => Nat.eqb c c'
      | None => false
      end
  end.

(** The result built for a fixed-price child. *)
Definition fixed_result (subcarrier : nat) : list shipping_result :=
  [ {| exact_price := fixed_price (carriers subcarrier);
       tracking_number := None |} ].

(** The body of the [try] with its [finally]: the picking points to the
    child while the inherited booking runs, and to the parent afterwards,
    however the booking ends. *)
Definition attempt (carrier subcarrier : nat) (p : picking) (st : store H)
    : store H * result (list shipping_result) :=
  let st := set_carrier_id p subcarrier st in
  let (st, r) := super_send_shipping [subcarrier] [p] st in
  (set_carrier_id p carrier st, r).

(** The inner loop over the candidate children.  [picking_res] is [None]
    while it is still [False]. *)
Fixpoint scan_children (carrier : nat) (p : picking) (subs : list nat) (st : store H)
    : store H * result (option (list shipping_result)) :=
  match subs with
  | [] => (st, Return None)
  | subcarrier :: rest =>
      if String.eqb (delivery_type (carriers subcarrier)) "fixed"
      then
        if _match_address subcarrier (partner_id p)
        then (st, Return (Some (fixed_result subcarrier)))
        else scan_children carrier p rest st
      else
        match attempt carrier subcarrier p st with
        | (st, Return picking_res) => (st, Return (Some picking_res))
        | (st, Raise _) => scan_children carrier p rest st
        | (st, Abort b) => (st, Abort b)
        end
  end.

(** [not picking_res] *)
Definition no_result (picking_res : option (list shipping_result)) : bool :=
  match picking_res with
  | None => true
  | Some l => negb (nonempty l)
  end.

Definition no_matching_rule : exception :=
  ValidationError "There is no matching delivery rule.".

(** The outer loop over [pickings], with [res] accumulated so far. *)
Fixpoint send_each (carrier : nat) (pickings : list picking)
    (res : list shipping_result) (st : store H)
    : store H * result (list shipping_result) :=
  match pickings with
  | [] => (st, Return res)
  | p :: rest =>
      let subs := List.filter (same_company p) (child_ids (carriers carrier)) in
      match scan_children carrier p subs st with
      | (st, Return picking_res) =>
          if no_result picking_res
          then (st, Raise no_matching_rule)
          else
            let picking_res := match picking_res with Some l => l | None => [] end in
            send_each carrier rest (res ++ picking_res) st
      | (st, Raise e) => (st, Raise e)
      | (st, Abort b) => (st, Abort b)
      end
  end.

Definition send_shipping (self : list nat) (pickings : list picking) (st : store H)
    : store H * result (list shipping_result) :=
  match read_destination_type self with
  | Return d =>
      let is_one := match d with Some one => true | _ => false end in
      if is_one || negb (nonempty self)
      then super_send_shipping self pickings st
      else
        (* [self] holds one record here: the field was read and [self] is
           not empty *)
        match self with
        | carrier :: _ => send_each carrier pickings [] st
        | [] => (st, Return [])
        end
  | Raise e => (st, Raise e)
  | Abort b => (st, Abort b)
  end.

(** ** Product suggestion on the form *)

(** [product_id] is a column of [delivery.carrier] kept apart from the rows:
    the product of each carrier that has one. *)

(** [records.product_id] on a recordset: the products of its records, each
    once, in order. *)
Definition mapped_product_id (products : gmap nat nat) (records : list nat)
    : list nat :=
  ordered_set []
    (flat_map (fun id => match products !! id with Some p => [p] | None => [] end)
              records).

(** [fields.first(records)]: the first record, or the empty recordset. *)
Definition first (records : list nat) : option nat :=
  match records with
  | [] => None
  | r :: _ => Some r
  end.

(** [self.product_id = value] *)
Definition set_product_id (self : nat) (v : option nat) (products : gmap nat nat)
    : gmap nat nat :=
  match v with
  | Some p => <[self := p]> products
  | None => delete self products
  end.

Definition _onchange_destination_type (self : nat) (products : gmap nat nat)
    : gmap nat nat :=
  if destination_type_is (carriers self) multi
     && nonempty (child_ids (carriers self))
     && negb (match products !! self with Some _ => true | None => false end)
  then
    set_product_id self
      (first (mapped_product_id products (child_ids (carriers self)))) products
  else products.

(** ** The listing filter and the caller's list *)

(** [domain += [...]] extends the list object it is given.  The heap maps the
    address of a list object to its content; [ref] is the list the caller
    passes, or [None].  The call returns the heap it leaves behind. *)
Definition search_in_place (ctx : gmap string value) (heap : gmap nat domain)
    (ref : option nat) (offset : nat) (limit : option nat) (order : option string)
    (count : bool) : gmap nat domain * search_result :=
  if negb (truthy (context_get ctx "show_children_carriers"))
  then
    match ref with
    | None =>
        (* a fresh list, known to the call alone *)
        (heap, super_search ctx (Some ([] ++ [no_parent])) offset limit order count)
    | Some r =>
        match heap !! r with
        | Some d =>
            (<[r := d ++ [no_parent]]> heap,
             super_search ctx (Some (d ++ [no_parent])) offset limit order count)
        | None =>
            (* no object at this address: not a reference a caller can hold *)
            (heap, super_search ctx None offset limit order count)
        end
    end
  else (heap, super_search ctx (ref ≫= (heap !!.)) offset limit order count).

(** [n] default searches in a row on the same list object. *)
Fixpoint search_repeatedly (n : nat) (ctx : gmap string value)
    (heap : gmap nat domain) (r : nat) : gmap nat domain :=
  match n with
  | 0 => heap
  | S n =>
      search_repeatedly n ctx
        (fst (search_in_place ctx heap (Some r) 0 None None false)) r
  end.

(** ** Auxiliary notions for the properties *)

(** Whether the inherited availability check keeps something of what
    [available_carriers] hands it for [carrier]. *)
Definition passes (partner carrier : nat) : bool :=
  nonempty (super_available_carriers (candidates carrier) partner).

(** The children of [carrier] that may book picking [p]. *)
Definition candidates_for (carrier : nat) (p : picking) : list nat :=
  List.filter (same_company p) (child_ids (carriers carrier)).

(** ** What the children did, in the host's terms *)

(** The next three relations do not come from the code: they say, in terms
    of the children's rows, of [_match_address] and of the inherited booking
    alone, what happened to a picking, and [send_shipping] is compared with
    them. *)

(** [child_books carrier p subs st st' l]: going through the candidates [subs]
    from the store [st], some child booked picking [p] with the dictionaries
    [l], leaving the store [st'].  Every candidate before that child was a
    fixed-price child that rejects the recipient, or a child that is not
    fixed-price whose inherited booking raised an exception; the child itself
    is a fixed-price child that accepts the recipient ([l] is then its fixed
    price), or a child that is not fixed-price whose inherited booking
    returned the non-empty list [l]. *)
Inductive child_books (carrier : nat) (p : picking)
    : list nat -> store H -> store H -> list shipping_result -> Prop :=
| books_fixed (sub : nat) (rest : list nat) (st : store H) :
    delivery_type (carriers sub) = "fixed" ->
    _match_address sub (partner_id p) = true ->
    child_books carrier p (sub :: rest) st st (fixed_result sub)
| books_inherited (sub : nat) (rest : list nat) (st st1 : store H)
      (l : list shipping_result) :
    delivery_type (carriers sub) <> "fixed" ->
    super_send_shipping [sub] [p] (set_carrier_id p sub st) = (st1, Return l) ->
    l <> [] ->
    child_books carrier p (sub :: rest) st (set_carrier_id p carrier st1) l
| books_after_rejection (sub : nat) (rest : list nat) (st st' : store H)
      (l : list shipping_result) :
    delivery_type (carriers sub) = "fixed" ->
    _match_address sub (partner_id p) = false ->
    child_books carrier p rest st st' l ->
    child_books carrier p (sub :: rest) st st' l
| books_after_failure (sub : nat) (rest : list nat) (st st1 st' : store H)
      (e : exception) (l : list shipping_result) :
    delivery_type (carriers sub) <> "fixed" ->
    super_send_shipping [sub] [p] (set_carrier_id p sub st) = (st1, Raise e) ->
    child_books carrier p rest (set_carrier_id p carrier st1) st' l ->
    child_books carrier p (sub :: rest) st st' l.

(** [no_child_books carrier p subs st st']: going through the candidates
    [subs] from the store [st], no child produced a result for picking [p],
    and the store is [st'] then.  Every candidate tried was a fixed-price
    child that rejects the recipient or a child that is not fixed-price whose
    inherited booking raised an exception, up to the end of the candidates or
    to a child that is not fixed-price whose inherited booking returned an
    empty list. *)
Inductive no_child_books (carrier : nat) (p : picking)
    : list nat -> store H -> store H -> Prop :=
| none_left (st : store H) :
    no_child_books carrier p [] st st
| none_empty_booking (sub : nat) (rest : list nat) (st st1 : store H) :
    delivery_type (carriers sub) <> "fixed" ->
    super_send_shipping [sub] [p] (set_carrier_id p sub st) = (st1, Return []) ->
    no_child_books carrier p (sub :: rest) st (set_carrier_id p carrier st1)
| none_after_rejection (sub : nat) (rest : list nat) (st st' : store H) :
    delivery_type (carriers sub) = "fixed" ->
    _match_address sub (partner_id p) = false ->
    no_child_books carrier p rest st st' ->
    no_child_books carrier p (sub :: rest) st st'
| none_after_failure (sub : nat) (rest : list nat) (st st1 st' : store H)
      (e : exception) :
    delivery_type (carriers sub) <> "fixed" ->
    super_send_shipping [sub] [p] (set_carrier_id p sub st) = (st1, Raise e) ->
    no_child_books carrier p rest (set_carrier_id p carrier st1) st' ->
    no_child_books carrier p (sub :: rest) st st'.

(** [booked_in_turn carrier pickings st st' parts]: the pickings were booked
    one after the other from the store [st], each by a child among its own
    candidates, the i-th picking with the i-th list of [parts]. *)
Inductive booked_in_turn (carrier : nat)
    : list picking -> store H -> store H -> list (list shipping_result) -> Prop :=
| booked_none (st : store H) :
    booked_in_turn carrier [] st st []
| booked_next (p : picking) (rest : list picking) (st st1 st2 : store H)
      (l : list shipping_result) (parts : list (list shipping_result)) :
    child_books carrier p (candidates_for carrier p) st st1 l ->
    booked_in_turn carrier rest st1 st2 parts ->
    booked_in_turn carrier (p :: rest) st st2 (l :: parts).

(** A condition on the host: the inherited booking of one picking leaves the
    carrier reference of the other pickings alone. *)
Definition booking_frame : Prop :=
  forall (sub : nat) (p : picking) (s : store H) (k : nat),
    k <> picking_id p ->
    picking_carrier (fst (super_send_shipping [sub] [p] s)) !! k
    = picking_carrier s !! k.

End Router.

(** ** A small database and host, to run the definitions on *)

(** Four destination grids and a plain carrier:
    - 1 routes to 2 (rule based) and 3 (fixed price);
    - 10 routes to 11 and 12 (both rule based);
    - 20 routes to 21 (rule based);
    - 30 routes to 31 and 32 (both fixed price);
    - 40 is a plain fixed-price carrier. *)
Definition parent_row (children : list nat) : carrier :=
  {| delivery_type := "base_on_destination"; destination_type := Some multi;
     company_id := None; fixed_price := 0; child_ids := children;
     parent_id := None |}.

Definition child_row (kind : string) (price : Q) (parent : nat) : carrier :=
  {| delivery_type := kind; destination_type := Some one;
     company_id := None; fixed_price := price; child_ids := [];
     parent_id := Some parent |}.

Definition example_carriers : table :=
  fun id =>
    match id with
    | 1 => parent_row [2; 3]
    | 2 => child_row "base_on_rule" 0 1
    | 3 => child_row "fixed" 5 1
    | 10 => parent_row [11; 12]
    | 11 => child_row "base_on_rule" 0 10
    | 12 => child_row "base_on_rule" 0 10
    | 20 => parent_row [21]
    | 21 => child_row "base_on_rule" 0 20
    | 30 => parent_row [31; 32]
    | 31 => child_row "fixed" 7 30
    | 32 => child_row "fixed" 9 30
    | _ =>
        {| delivery_type := "fixed"; destination_type := Some one;
           company_id := None; fixed_price := 4; child_ids := [];
           parent_id := None |}
    end.

(** Every carrier delivers to partner 100 and to no one else. *)
Definition example_match_address (c partner : nat) : bool := Nat.eqb partner 100.

Definition example_available_carriers (self : list nat) (partner : nat) : list nat :=
  List.filter (fun c => example_match_address c partner) self.

(** The inherited quotation: the carrier's own price. *)
Definition example_rate_shipment (self : list nat) (o : order) : result Q :=
  match self with
  | [c] => Return (fixed_price (example_carriers c))
  | _ => Raise (OtherError "ValueError" "Expected singleton")
  end.

(** The inherited booking counts its calls in the host state.  Carrier 2 and
    12 book a shipment, 11 returns an empty list, 21 fails, 22 is
    interrupted. *)
Definition example_booking (self : list nat) (pickings : list picking)
    : result (list shipping_result) :=
  match self with
  | [2] => Return [ {| exact_price := 11; tracking_number := Some "T2" |} ]
  | [11] => Return []
  | [12] => Return [ {| exact_price := 12; tracking_number := Some "T12" |} ]
  | [21] => Raise (UserError "No price rule matching this order.")
  | [22] => Abort KeyboardInterrupt
  | _ => Return (map (fun _ => {| exact_price := 4; tracking_number := None |})
                     pickings)
  end.

Definition example_send_shipping (self : list nat) (pickings : list picking)
    (st : store nat) : store nat * result (list shipping_result) :=
  ({| picking_carrier := picking_carrier st; host := S (host st) |},
   example_booking self pickings).

(** The inherited search keeps the records every leaf accepts; the only leaf
    it knows is the one on [parent_id]. *)
Definition example_ids : list nat := [1; 2; 3; 10; 11; 12; 20; 21; 30; 31; 32; 40].

Definition example_leaf (item : domain_item) (id : nat) : bool :=
  match item with
  | Leaf "parent_id" "=" (VBool false) =>
      match parent_id (example_carriers id) with
      | Some _ => false
      | None => true
      end
  | _ => true
  end.

Definition example_filter (d : option domain) : list nat :=
  let d := match d with None => [] | Some d => d end in
  List.filter (fun id => forallb (fun item => example_leaf item id) d) example_ids.

Definition example_search (ctx : gmap string value) (d : option domain)
    (offset : nat) (limit : option nat) (order : option string) (count : bool)
    : search_result :=
  if count then Count (length (example_filter d)) else Records (example_filter d).

Definition example_name_search (ctx : gmap string value) (name : string)
    (args : option domain) (operator : string) (limit : option nat)
    : list (nat * string) :=
  map (fun id => (id, "carrier")) (example_filter args).

Definition example_host : Host nat Q :=
  {| carriers := example_carriers;
     _match_address := example_match_address;
     super_available_carriers := example_available_carriers;
     super_rate_shipment := example_rate_shipment;
     super_send_shipping := example_send_shipping;
     super_search := example_search;
     super_name_search := example_name_search |}.

Definition example_store : store nat :=
  {| picking_carrier := ∅; host := 0 |}.

(** A picking for partner 100, and a store in which it points to [c]. *)
Definition example_picking : picking :=
  {| picking_id := 7; picking_company_id := Some 1; partner_id := 100 |}.

Definition example_store_with (c : nat) : store nat :=
  {| picking_carrier := {[ 7 := c ]}; host := 0 |}.

(** A second database, for the cases the first one lacks:
    - grid 50 has no children;
    - carrier 51 has no [destination_type] and the children 31 and 32;
    - grid 60 routes to 61, a fixed-price child restricted to company 2;
    - grid 70 routes to 21 (rule based, its booking fails) and 31;
    - grid 80 routes to 22 (rule based, its booking is interrupted) and 31. *)
Definition example_carriers2 : table :=
  fun id =>
    match id with
    | 50 => parent_row []
    | 51 =>
        {| delivery_type := "base_on_rule"; destination_type := None;
           company_id := None; fixed_price := 0; child_ids := [31; 32];
           parent_id := None |}
    | 60 => parent_row [61]
    | 61 =>
        {| delivery_type := "fixed"; destination_type := Some one;
           company_id := Some 2; fixed_price := 6; child_ids := [];
           parent_id := Some 60 |}
    | 70 => parent_row [21; 31]
    | 80 => parent_row [22; 31]
    | 22 => child_row "base_on_rule" 0 80
    | _ => example_carriers id
    end.

Definition example_host2 : Host nat Q :=
  {| carriers := example_carriers2;
     _match_address := example_match_address;
     super_available_carriers := example_available_carriers;
     super_rate_shipment := example_rate_shipment;
     super_send_shipping := example_send_shipping;
     super_search := example_search;
     super_name_search := example_name_search |}.

(** Products: of the children of grid 30, only 32 has one. *)
Definition example_products : gmap nat nat := {[ 3 := 500; 32 := 900 ]}.

(** A second picking, for partner 100 too. *)
Definition example_picking2 : picking :=
  {| picking_id := 8; picking_company_id := Some 1; partner_id := 100 |}.

(** * Properties *)

(** ** Field synchronisation *)

Section Fields.

Lemma assign_same (tbl : table) (id : nat) (row : carrier) :
  assign tbl id row id = row.
Proof. unfold assign. now rewrite Nat.eqb_refl. Qed.

Lemma assign_other (tbl : table) (id k : nat) (row : carrier) :
  k <> id -> assign tbl id row k = tbl k.
Proof.
  intros Hne. unfold assign.
  destruct (Nat.eqb_spec k id) as [Heq | _]; [contradiction | reflexivity].
Qed.

(** Rows outside the recordset are not touched. *)
Lemma for_each_other (body : carrier -> carrier) (self : list nat) :
  forall (tbl : table) (c : nat), ~ In c self -> for_each body self tbl c = tbl c.
Proof.
  induction self as [| id rest IH]; intros tbl c Hnot; simpl.
  - reflexivity.
  - rewrite IH.
    + apply assign_other. intros ->. apply Hnot. now left.
    + intros Hin. apply Hnot. now right.
Qed.

(** With an idempotent body, a row of the recordset gets the body once,
    however often its id occurs. *)
Lemma for_each_in (body : carrier -> carrier) (self : list nat) :
  (forall r, body (body r) = body r) ->
  forall (tbl : table) (c : nat), In c self -> for_each body self tbl c = body (tbl c).
Proof.
  intros Hidem.
  induction self as [| id rest IH]; intros tbl c Hin; simpl.
  - destruct Hin.
  - destruct (in_dec Nat.eq_dec c rest) as [Hrest | Hrest].
    + rewrite (IH _ _ Hrest).
      destruct (Nat.eq_dec c id) as [-> | Hne].
      * rewrite assign_same. apply Hidem.
      * now rewrite assign_other.
    + destruct Hin as [-> | Hin]; [| contradiction].
      rewrite for_each_other by assumption. apply assign_same.
Qed.

Lemma compute_row_idempotent (r : carrier) :
  compute_destination_type_row (compute_destination_type_row r)
  = compute_destination_type_row r.
Proof.
  unfold compute_destination_type_row.
  destruct (String.eqb (delivery_type r) "base_on_destination") eqn:E;
    simpl; rewrite E; reflexivity.
Qed.

Lemma inverse_row_idempotent (r : carrier) :
  inverse_destination_type_row (inverse_destination_type_row r)
  = inverse_destination_type_row r.
Proof.
  unfold inverse_destination_type_row, destination_type_is.
  destruct r as [dl [[|]|] co fp ch pa]; simpl;
    try reflexivity;
    destruct (String.eqb dl "base_on_destination") eqn:E; simpl;
    rewrite ?E; reflexivity.
Qed.

Lemma set_delivery_type_idempotent (v : string) (r : carrier) :
  set_delivery_type v (set_delivery_type v r) = set_delivery_type v r.
Proof. reflexivity. Qed.

Lemma set_destination_type_idempotent (v : option destination) (r : carrier) :
  set_destination_type v (set_destination_type v r) = set_destination_type v r.
Proof. reflexivity. Qed.

(** The compute method establishes the invariant on any row. *)
Lemma compute_row_synchronised (r : carrier) :
  synchronised (compute_destination_type_row r).
Proof.
  unfold synchronised, compute_destination_type_row.
  destruct (String.eqb_spec (delivery_type r) "base_on_destination") as [E | E];
    simpl; split; intros Hx; try congruence.
Qed.

(** So does the inverse method, whatever the row held before. *)
Lemma inverse_row_synchronised (r : carrier) :
  synchronised (inverse_destination_type_row r).
Proof.
  unfold synchronised, inverse_destination_type_row, destination_type_is.
  destruct r as [dl [[|]|] co fp ch pa]; simpl;
    try (split; intros; congruence);
    destruct (String.eqb_spec dl "base_on_destination"); simpl;
    split; intros Hx; congruence.
Qed.

(** A write leaves the rows of the recordset synchronised. *)
Lemma write_synchronised (self : list nat) (w : field_write) (tbl : table) (c : nat) :
  In c self -> synchronised (write self w tbl c).
Proof.
  intros Hin. destruct w as [v | v]; simpl.
  - unfold _compute_destination_type.
    rewrite (for_each_in _ _ compute_row_idempotent) by assumption.
    apply compute_row_synchronised.
  - unfold _inverse_destination_type.
    rewrite (for_each_in _ _ inverse_row_idempotent) by assumption.
    apply inverse_row_synchronised.
Qed.

(** A write keeps a synchronised row synchronised, in or out of the
    recordset. *)
Lemma write_preserves (self : list nat) (w : field_write) (tbl : table) (c : nat) :
  synchronised (tbl c) -> synchronised (write self w tbl c).
Proof.
  intros Hsync.
  destruct (in_dec Nat.eq_dec c self) as [Hin | Hout].
  - now apply write_synchronised.
  - destruct w as [v | v]; simpl;
      unfold _compute_destination_type, _inverse_destination_type;
      now rewrite !for_each_other by assumption.
Qed.

Lemma writes_preserve (ws : list (list nat * field_write)) :
  forall (tbl : table) (c : nat),
    synchronised (tbl c) -> synchronised (writes ws tbl c).
Proof.
  induction ws as [| [self w] rest IH]; intros tbl c Hsync; simpl.
  - assumption.
  - apply IH. now apply write_preserves.
Qed.

(** C5. After a write to [delivery_type] or [destination_type] on a recordset,
    and after any further writes, every carrier of the recordset has
    [destination_type = multi] exactly when its [delivery_type] is
    [base_on_destination].  The compute method maps [base_on_destination] to
    [multi] and any other delivery type to [one], leaving [delivery_type] as it
    is; the inverse method, on a carrier whose [destination_type] is [multi],
    sets [delivery_type] to [base_on_destination]. *)
Theorem destination_type_synchronised (tbl : table) (self : list nat) (c : nat) :
  In c self ->
  destination_type (_compute_destination_type self tbl c)
    = (if String.eqb (delivery_type (tbl c)) "base_on_destination"
       then Some multi else Some one)
  /\ delivery_type (_compute_destination_type self tbl c) = delivery_type (tbl c)
  /\ (destination_type (tbl c) = Some multi ->
      delivery_type (_inverse_destination_type self tbl c) = "base_on_destination")
  /\ (forall w, synchronised (write self w tbl c))
  /\ (forall w ws, synchronised (writes ws (write self w tbl) c)).
Proof.
  intros Hin.
  unfold _compute_destination_type, _inverse_destination_type.
  rewrite (for_each_in _ _ compute_row_idempotent) by assumption.
  rewrite (for_each_in _ _ inverse_row_idempotent) by assumption.
  repeat split.
  - unfold compute_destination_type_row.
    now destruct (String.eqb (delivery_type (tbl c)) "base_on_destination").
  - unfold compute_destination_type_row.
    now destruct (String.eqb (delivery_type (tbl c)) "base_on_destination").
  - intros Hmulti. unfold inverse_destination_type_row, destination_type_is.
    now rewrite Hmulti.
  - apply (write_synchronised self w tbl c Hin).
  - apply (write_synchronised self w tbl c Hin).
  - apply writes_preserve, write_synchronised, Hin.
  - apply writes_preserve, write_synchronised, Hin.
Qed.

(** The theorem at carrier 1 of the example database. *)
Lemma destination_type_synchronised_witness :
  synchronised (write [1] (WriteDestinationType (Some one)) example_carriers 1).
Proof.
  apply (destination_type_synchronised example_carriers [1] 1).
  simpl. left. reflexivity.
Defined.

(** C6. Setting [destination_type] to [one] resets [delivery_type] to [fixed]
    on a carrier whose [delivery_type] was [base_on_destination], and leaves
    [delivery_type] as it was on a carrier with any other delivery type. *)
Theorem leaving_multi_resets_delivery_type (tbl : table) (self : list nat) (c : nat) :
  In c self ->
  (delivery_type (tbl c) = "base_on_destination" ->
   delivery_type (write self (WriteDestinationType (Some one)) tbl c) = "fixed")
  /\ (delivery_type (tbl c) <> "base_on_destination" ->
      delivery_type (write self (WriteDestinationType (Some one)) tbl c)
      = delivery_type (tbl c)).
Proof.
  intros Hin. simpl. unfold _inverse_destination_type.
  rewrite (for_each_in _ _ inverse_row_idempotent) by assumption.
  rewrite (for_each_in _ _ (set_destination_type_idempotent (Some one)))
    by assumption.
  unfold inverse_destination_type_row, destination_type_is. simpl.
  split; intros Hdt.
  - now rewrite Hdt.
  - destruct (String.eqb_spec (delivery_type (tbl c)) "base_on_destination");
      [contradiction | reflexivity].
Qed.

(** The theorem at carrier 1 of the example database, a destination grid. *)
Lemma leaving_multi_resets_delivery_type_witness :
  delivery_type (write [1] (WriteDestinationType (Some one)) example_carriers 1)
  = "fixed".
Proof.
  apply (leaving_multi_resets_delivery_type example_carriers [1] 1).
  - simpl. left. reflexivity.
  - reflexivity.
Defined.

End Fields.

(** ** Listing filter *)

Section Listing.
Context {H R : Type} `{!Host H R}.

(** The flag counts as set when the context holds a truthy value for it. *)
Lemma flag_absent (ctx : gmap string value) :
  ctx !! "show_children_carriers" = None ->
  truthy (context_get ctx "show_children_carriers") = false.
Proof. intros Hnone. unfold context_get. now rewrite Hnone. Qed.

Lemma flag_present (ctx : gmap string value) (v : value) :
  ctx !! "show_children_carriers" = Some v ->
  truthy (context_get ctx "show_children_carriers") = truthy v.
Proof. intros Hsome. unfold context_get. now rewrite Hsome. Qed.

(** C8. Without the [show_children_carriers] flag in the context, [search]
    and [name_search] call the inherited method on the caller's domain (the
    empty one when none is given) followed by the leaf
    [("parent_id", "=", False)], so that, the inherited method honouring that
    leaf, no carrier with a parent is listed.  With the flag set (to a truthy
    value), they pass the caller's domain on as it is, and what is listed is
    what the inherited method finds, children included.  A flag stored with a
    falsy value counts as absent. *)
Theorem listing_hides_children
    (ctx : gmap string value) (d : option domain) (offset : nat)
    (limit : option nat) (order : option string) (count : bool)
    (name operator : string) :
  (forall ids id,
     super_search ctx (default_domain d) offset limit order count = Records ids ->
     In id ids -> is_child id = false) ->
  (forall id label,
     In (id, label) (super_name_search ctx name (default_domain d) operator limit) ->
     is_child id = false) ->
  (ctx !! "show_children_carriers" = None
   \/ (exists v, ctx !! "show_children_carriers" = Some v /\ truthy v = false) ->
     search ctx d offset limit order count
       = super_search ctx (default_domain d) offset limit order count
     /\ name_search ctx name d operator limit
       = super_name_search ctx name (default_domain d) operator limit
     /\ (forall ids id,
           search ctx d offset limit order count = Records ids ->
           In id ids -> parent_id (carriers id) = None)
     /\ (forall id label,
           In (id, label) (name_search ctx name d operator limit) ->
           parent_id (carriers id) = None))
  /\ ((exists v, ctx !! "show_children_carriers" = Some v /\ truthy v = true) ->
     search ctx d offset limit order count
       = super_search ctx d offset limit order count
     /\ name_search ctx name d operator limit
       = super_name_search ctx name d operator limit).
Proof.
  intros Hsearch Hname. split.
  - intros Hflag.
    assert (truthy (context_get ctx "show_children_carriers") = false) as Hfalse.
    { destruct Hflag as [Hnone | [v [Hsome Hv]]].
      - now apply flag_absent.
      - now rewrite (flag_present _ _ Hsome). }
    unfold search, name_search. rewrite Hfalse. simpl.
    fold (default_domain d).
    repeat split.
    + intros ids id Hres Hin.
      specialize (Hsearch ids id Hres Hin). unfold is_child in Hsearch.
      now destruct (parent_id (carriers id)).
    + intros id label Hin.
      specialize (Hname id label Hin). unfold is_child in Hname.
      now destruct (parent_id (carriers id)).
  - intros [v [Hsome Hv]].
    unfold search, name_search.
    rewrite (flag_present _ _ Hsome), Hv. simpl. split; reflexivity.
Qed.

End Listing.

(** The example search honours the leaf on [parent_id] wherever it stands. *)
Lemma example_filter_no_parent (d : domain) (id : nat) :
  In id (example_filter (Some (d ++ [no_parent]))) ->
  @is_child nat Q example_host id = false.
Proof.
  unfold example_filter. intros Hin.
  apply filter_In in Hin. destruct Hin as [_ Hall].
  rewrite forallb_app in Hall. apply andb_prop in Hall.
  destruct Hall as [_ Hleaf]. simpl in Hleaf.
  unfold is_child. simpl.
  destruct (parent_id (example_carriers id)); [discriminate | reflexivity].
Qed.

(** The theorem on the example database: a default search with no domain
    lists the five carriers that have no parent. *)
Lemma listing_hides_children_witness :
  @search nat Q example_host ∅ None 0 None None false
  = Records [1; 10; 20; 30; 40].
Proof.
  refine (eq_trans
    (proj1 (proj1 (@listing_hides_children nat Q example_host
       ∅ None 0 None None false "" "ilike" _ _) (or_introl _))) _).
  - intros ids id Hres Hin. injection Hres as <-.
    apply (example_filter_no_parent [] id Hin).
  - intros id label Hin.
    change (In (id, label)
              (map (fun id => (id, "carrier")) (example_filter (default_domain None))))
      in Hin.
    apply in_map_iff in Hin. destruct Hin as [x [Heq Hin]].
    injection Heq as -> _.
    apply (example_filter_no_parent [] id Hin).
  - reflexivity.
  - vm_compute. reflexivity.
Defined.

(** ** Availability *)

Section Availability.
Context {H R : Type} `{!Host H R}.

Lemma ordered_set_In (ids : list nat) :
  forall (seen : list nat) (x : nat),
    In x (ordered_set seen ids) <-> In x seen \/ In x ids.
Proof.
  induction ids as [| id rest IH]; intros seen x; simpl.
  - tauto.
  - destruct (existsb (Nat.eqb id) seen) eqn:Hseen.
    + rewrite IH. apply existsb_exists in Hseen.
      destruct Hseen as [y [Hy Heq]]. apply Nat.eqb_eq in Heq. subst y.
      split; [tauto |]. intros [Hs | [<- | Hr]]; tauto.
    + rewrite IH, in_app_iff. simpl. tauto.
Qed.

Lemma recordset_or_In (a b : list nat) (x : nat) :
  In x (recordset_or a b) <-> In x a \/ In x b.
Proof.
  unfold recordset_or. rewrite ordered_set_In, in_app_iff. simpl. tauto.
Qed.

(** The loop adds exactly the carriers whose candidates pass the inherited
    check. *)
Lemma available_loop_In (partner : nat) (self : list nat) :
  forall (available : list nat) (c : nat),
    In c (available_loop self partner available)
    <-> In c available
        \/ (In c self
            /\ nonempty (super_available_carriers (candidates c) partner) = true).
Proof.
  induction self as [| carrier rest IH]; intros available c; simpl.
  - tauto.
  - rewrite IH.
    destruct (nonempty (super_available_carriers (candidates carrier) partner))
      eqn:Hcheck.
    + rewrite recordset_or_In. simpl.
      split.
      * intros [[Ha | [<- | []]] | [Hr Hc]]; auto.
      * intros [Ha | [[<- | Hr] Hc]]; auto.
    + split.
      * intros [Ha | [Hr Hc]]; auto.
      * intros [Ha | [[<- | Hr] Hc]]; auto. congruence.
Qed.

Lemma available_carriers_In (self : list nat) (partner c : nat) :
  In c (available_carriers self partner)
  <-> In c self
      /\ nonempty (super_available_carriers (candidates c) partner) = true.
Proof.
  unfold available_carriers. rewrite available_loop_In. simpl. tauto.
Qed.

(** C7. For a carrier of the input set whose [destination_type] is [one],
    [available_carriers] keeps it exactly when the inherited check, run on the
    carrier itself, keeps something.  For one whose [destination_type] is
    [multi], it keeps the carrier exactly when at least one of its children is
    available for the partner, the inherited check deciding each record on its
    own. *)
Theorem available_carriers_routes (self : list nat) (partner c : nat) :
  (forall cs,
     nonempty (super_available_carriers cs partner)
     = existsb (fun x => nonempty (super_available_carriers [x] partner)) cs) ->
  In c self ->
  (destination_type (carriers c) = Some one ->
     (In c (available_carriers self partner)
      <-> nonempty (super_available_carriers [c] partner) = true))
  /\ (destination_type (carriers c) = Some multi ->
     (In c (available_carriers self partner)
      <-> exists child,
            In child (child_ids (carriers c))
            /\ nonempty (super_available_carriers [child] partner) = true)).
Proof.
  intros Hpointwise Hin. split; intros Hdest;
    rewrite available_carriers_In;
    unfold candidates, destination_type_is; rewrite Hdest; simpl.
  - tauto.
  - rewrite Hpointwise, existsb_exists. tauto.
Qed.

End Availability.

(** The example check decides each record on its own. *)
Lemma example_available_pointwise (partner : nat) (cs : list nat) :
  nonempty (example_available_carriers cs partner)
  = existsb (fun x => nonempty (example_available_carriers [x] partner)) cs.
Proof.
  unfold example_available_carriers, example_match_address.
  induction cs as [| x rest IH]; simpl.
  - reflexivity.
  - destruct (Nat.eqb partner 100); simpl; [reflexivity | exact IH].
Qed.

(** The theorem on the example database: grid 30 is available for partner
    100, through its children. *)
Lemma available_carriers_routes_witness :
  In 30 (@available_carriers nat Q example_host [1; 40; 30] 100).
Proof.
  apply (proj2 (@available_carriers_routes nat Q example_host [1; 40; 30] 100 30
                  (example_available_pointwise 100)
                  ltac:(simpl; tauto))
               eq_refl).
  exists 31. split; [simpl; tauto | reflexivity].
Defined.

(** ** Rate quotation *)

Section Rating.
Context {H R : Type} `{!Host H R}.

(** Children that do not match are passed over. *)
Lemma rate_children_skip (o : order) (pre : list nat) :
  forall rest,
    (forall x, In x pre -> _match_address x (partner_shipping_id o) = false) ->
    rate_children (pre ++ rest) o = rate_children rest o.
Proof.
  induction pre as [| x pre IH]; intros rest Hpre; simpl.
  - reflexivity.
  - rewrite (Hpre x) by now left.
    apply IH. intros y Hy. apply Hpre. now right.
Qed.

Lemma rate_shipment_multi (self : nat) (o : order) :
  destination_type (carriers self) = Some multi ->
  rate_shipment [self] o = rate_children (child_ids (carriers self)) o.
Proof.
  intros Hdest. unfold rate_shipment. simpl. rewrite Hdest.
  unfold read_child_ids. simpl. now rewrite app_nil_r.
Qed.

(** C1. On a carrier whose [destination_type] is [multi], [rate_shipment]
    goes through the children in their stored order and returns what the
    inherited quotation gives for the first child whose [_match_address]
    accepts the order's shipping address.  With children [a; b] that both
    match, that is the quotation of [a]. *)
Theorem rate_shipment_first_match (self : nat) (o : order) :
  destination_type (carriers self) = Some multi ->
  (forall pre a post,
     child_ids (carriers self) = pre ++ a :: post ->
     (forall x, In x pre -> _match_address x (partner_shipping_id o) = false) ->
     _match_address a (partner_shipping_id o) = true ->
     rate_shipment [self] o = result_map Some (super_rate_shipment [a] o))
  /\ (forall a b,
        child_ids (carriers self) = [a; b] ->
        _match_address a (partner_shipping_id o) = true ->
        _match_address b (partner_shipping_id o) = true ->
        rate_shipment [self] o = result_map Some (super_rate_shipment [a] o)).
Proof.
  intros Hdest.
  assert (forall pre a post,
     child_ids (carriers self) = pre ++ a :: post ->
     (forall x, In x pre -> _match_address x (partner_shipping_id o) = false) ->
     _match_address a (partner_shipping_id o) = true ->
     rate_shipment [self] o = result_map Some (super_rate_shipment [a] o))
    as Hfirst.
  { intros pre a post Hchildren Hpre Ha.
    rewrite (rate_shipment_multi _ _ Hdest), Hchildren.
    rewrite rate_children_skip by assumption.
    simpl. now rewrite Ha. }
  split; [exact Hfirst |].
  intros a b Hchildren Ha _.
  apply (Hfirst [] a [b]); [assumption | intros x [] | assumption].
Qed.

(** C9. On a carrier whose [destination_type] is [multi], when no child
    accepts the order's shipping address, [rate_shipment] returns [None]: it
    neither raises nor calls the inherited quotation. *)
Theorem rate_shipment_no_match (self : nat) (o : order) :
  destination_type (carriers self) = Some multi ->
  (forall x, In x (child_ids (carriers self)) ->
             _match_address x (partner_shipping_id o) = false) ->
  rate_shipment [self] o = Return None.
Proof.
  intros Hdest Hnone.
  rewrite (rate_shipment_multi _ _ Hdest).
  rewrite <- (app_nil_r (child_ids (carriers self))).
  now rewrite rate_children_skip.
Qed.

End Rating.

(** The theorem on grid 30 of the example database, whose children 31 and
    32 both deliver to partner 100: the quotation is that of 31. *)
Lemma rate_shipment_first_match_witness :
  @rate_shipment nat Q example_host [30]
    {| order_id := 1; partner_shipping_id := 100 |}
  = Return (Some (fixed_price (example_carriers 31))).
Proof.
  apply (proj2 (@rate_shipment_first_match nat Q example_host 30
                  {| order_id := 1; partner_shipping_id := 100 |} eq_refl)
               31 32 eq_refl eq_refl eq_refl).
Defined.

(** The theorem on grid 30 and an order for partner 200, to whom no carrier
    of the example database delivers. *)
Lemma rate_shipment_no_match_witness :
  @rate_shipment nat Q example_host [30]
    {| order_id := 2; partner_shipping_id := 200 |}
  = Return None.
Proof.
  apply (@rate_shipment_no_match nat Q example_host 30
           {| order_id := 2; partner_shipping_id := 200 |} eq_refl).
  intros x Hx. reflexivity.
Defined.

(** ** Shipment booking *)

Section Shipping.
Context {H R : Type} `{!Host H R}.

(** On a destination grid, [send_shipping] is the loop over the pickings. *)
Lemma send_shipping_multi (self : nat) (pickings : list picking) (st : store H) :
  destination_type (carriers self) = Some multi ->
  send_shipping [self] pickings st = send_each self pickings [] st.
Proof.
  intros Hdest. unfold send_shipping. simpl. now rewrite Hdest.
Qed.

(** After the [finally], the picking points to the parent, however the
    inherited booking ended and whatever it did to the store. *)
Lemma attempt_carrier_id (carrier subcarrier : nat) (p : picking) (st : store H) :
  carrier_id (fst (attempt carrier subcarrier p st)) p = Some carrier.
Proof.
  unfold attempt, carrier_id.
  destruct (super_send_shipping [subcarrier] [p] (set_carrier_id p subcarrier st))
    as [st1 r].
  simpl. apply lookup_insert_eq.
Qed.

(** The outcome of an attempt is the outcome of the inherited booking. *)
Lemma attempt_outcome (carrier subcarrier : nat) (p : picking) (st st1 : store H)
    (r : result (list shipping_result)) :
  super_send_shipping [subcarrier] [p] (set_carrier_id p subcarrier st) = (st1, r) ->
  attempt carrier subcarrier p st = (set_carrier_id p carrier st1, r).
Proof. intros Hcall. unfold attempt. now rewrite Hcall. Qed.

(** The scan of the children raises nothing of its own. *)
Lemma scan_children_no_raise (carrier : nat) (p : picking) (subs : list nat) :
  forall (st st' : store H) (e : exception),
    scan_children carrier p subs st <> (st', Raise e).
Proof.
  induction subs as [| sub rest IH]; intros st st' e; simpl.
  - discriminate.
  - destruct (String.eqb (delivery_type (carriers sub)) "fixed").
    + destruct (_match_address sub (partner_id p)); [discriminate | apply IH].
    + destruct (attempt carrier sub p st) as [st1 [l | e1 | b]];
        [discriminate | apply IH | discriminate].
Qed.

(** Fixed-price children that do not match are passed over, the store
    untouched. *)
Lemma scan_children_skip_fixed (carrier : nat) (p : picking) (pre : list nat) :
  forall (rest : list nat) (st : store H),
    (forall x, In x pre ->
       delivery_type (carriers x) = "fixed"
       /\ _match_address x (partner_id p) = false) ->
    scan_children carrier p (pre ++ rest) st = scan_children carrier p rest st.
Proof.
  induction pre as [| x pre IH]; intros rest st Hpre; simpl.
  - reflexivity.
  - destruct (Hpre x (or_introl eq_refl)) as [Hfixed Hno].
    rewrite Hfixed, Hno. simpl.
    apply IH. intros y Hy. apply Hpre. now right.
Qed.

(** Pickings booked so far can be split off the loop. *)
Lemma send_each_app (carrier : nat) (pre : list picking) :
  forall (rest : list picking) (res res1 : list shipping_result) (st st1 : store H),
    send_each carrier pre res st = (st1, Return res1) ->
    send_each carrier (pre ++ rest) res st = send_each carrier rest res1 st1.
Proof.
  induction pre as [| p pre IH]; intros rest res res1 st st1 Hpre; simpl in *.
  - now injection Hpre as -> ->.
  - destruct (scan_children carrier p
                (List.filter (same_company p) (child_ids (carriers carrier))) st)
      as [st2 [picking_res | e | b]]; try discriminate.
    destruct (no_result picking_res); [discriminate |].
    now apply IH.
Qed.

(** An exception out of the loop is the validation error, raised at the
    first picking whose scan ends without a result. *)
Lemma send_each_raise (carrier : nat) (pickings : list picking) :
  forall (res : list shipping_result) (st st' : store H) (e : exception),
    send_each carrier pickings res st = (st', Raise e) ->
    e = no_matching_rule
    /\ exists pre p post res1 st1 picking_res,
         pickings = pre ++ p :: post
         /\ send_each carrier pre res st = (st1, Return res1)
         /\ scan_children carrier p
              (List.filter (same_company p) (child_ids (carriers carrier))) st1
            = (st', Return picking_res)
         /\ no_result picking_res = true.
Proof.
  induction pickings as [| p rest IH]; intros res st st' e Hrun; simpl in Hrun.
  - discriminate.
  - destruct (scan_children carrier p
                (List.filter (same_company p) (child_ids (carriers carrier))) st)
      as [st2 [picking_res | e1 | b]] eqn:Hscan.
    + destruct (no_result picking_res) eqn:Hno.
      * injection Hrun as -> <-. split; [reflexivity |].
        exists [], p, rest, res, st, picking_res. simpl. auto.
      * apply IH in Hrun.
        destruct Hrun as [He [pre [q [post [res1 [st1 [pr [-> [Hpre [Hq Hpr]]]]]]]]]].
        split; [assumption |].
        exists (p :: pre), q, post, res1, st1, pr.
        simpl. rewrite Hscan, Hno. auto.
    + exfalso. exact (scan_children_no_raise _ _ _ _ _ _ Hscan).
    + discriminate.
Qed.

(** *** The loops against what the children did *)

Lemma fixed_eqb (sub : nat) :
  delivery_type (carriers sub) = "fixed" ->
  String.eqb (delivery_type (carriers sub)) "fixed" = true.
Proof. intros ->. reflexivity. Qed.

Lemma not_fixed_eqb (sub : nat) :
  delivery_type (carriers sub) <> "fixed" <->
  String.eqb (delivery_type (carriers sub)) "fixed" = false.
Proof. symmetry. apply String.eqb_neq. Qed.

(** A child that books leaves a non-empty list. *)
Lemma child_books_nonempty (carrier : nat) (p : picking) (subs : list nat)
    (st st' : store H) (l : list shipping_result) :
  child_books carrier p subs st st' l -> l <> [].
Proof.
  induction 1; [discriminate | assumption | assumption | assumption].
Qed.

(** The scan returns a non-empty list exactly when a child booked. *)
Lemma scan_children_books (carrier : nat) (p : picking) (subs : list nat) :
  forall (st st' : store H) (l : list shipping_result),
    child_books carrier p subs st st' l
    <-> scan_children carrier p subs st = (st', Return (Some l)) /\ l <> [].
Proof.
  intros st st' l. split.
  - induction 1 as [sub rest st Hfixed Hmatch
                   | sub rest st st1 l Hkind Hcall Hl
                   | sub rest st st' l Hfixed Hmatch _ IH
                   | sub rest st st1 st' e l Hkind Hcall _ IH]; simpl.
    + rewrite (fixed_eqb _ Hfixed), Hmatch. split; [reflexivity | discriminate].
    + apply not_fixed_eqb in Hkind.
      rewrite Hkind, (attempt_outcome _ _ _ _ _ _ Hcall). auto.
    + rewrite (fixed_eqb _ Hfixed), Hmatch. exact IH.
    + apply not_fixed_eqb in Hkind.
      rewrite Hkind, (attempt_outcome _ _ _ _ _ _ Hcall). exact IH.
  - revert st. induction subs as [| sub rest IH]; intros st [Hscan Hl];
      simpl in Hscan.
    + discriminate.
    + destruct (String.eqb (delivery_type (carriers sub)) "fixed") eqn:Hkind.
      * apply String.eqb_eq in Hkind.
        destruct (_match_address sub (partner_id p)) eqn:Hmatch.
        -- injection Hscan as <- <-. now apply books_fixed.
        -- apply books_after_rejection; auto.
      * apply not_fixed_eqb in Hkind. unfold attempt in Hscan.
        destruct (super_send_shipping [sub] [p] (set_carrier_id p sub st))
          as [st1 [l1 | e | b]] eqn:Hcall.
        -- injection Hscan as <- <-. now apply books_inherited.
        -- apply (books_after_failure _ _ _ _ _ st1 _ e); auto.
        -- discriminate.
Qed.

(** The scan ends on a falsy [picking_res] exactly when no child booked. *)
Lemma scan_children_no_result (carrier : nat) (p : picking) (subs : list nat) :
  forall st st' : store H,
    no_child_books carrier p subs st st'
    <-> exists picking_res,
          scan_children carrier p subs st = (st', Return picking_res)
          /\ no_result picking_res = true.
Proof.
  intros st st'. split.
  - induction 1 as [st
                   | sub rest st st1 Hkind Hcall
                   | sub rest st st' Hfixed Hmatch _ IH
                   | sub rest st st1 st' e Hkind Hcall _ IH]; simpl.
    + exists None. auto.
    + apply not_fixed_eqb in Hkind.
      rewrite Hkind, (attempt_outcome _ _ _ _ _ _ Hcall). exists (Some []). auto.
    + rewrite (fixed_eqb _ Hfixed), Hmatch. exact IH.
    + apply not_fixed_eqb in Hkind.
      rewrite Hkind, (attempt_outcome _ _ _ _ _ _ Hcall). exact IH.
  - revert st. induction subs as [| sub rest IH];
      intros st [picking_res [Hscan Hno]]; simpl in Hscan.
    + injection Hscan as <- _. constructor.
    + destruct (String.eqb (delivery_type (carriers sub)) "fixed") eqn:Hkind.
      * apply String.eqb_eq in Hkind.
        destruct (_match_address sub (partner_id p)) eqn:Hmatch.
        -- injection Hscan as _ <-. discriminate.
        -- apply none_after_rejection; eauto.
      * apply not_fixed_eqb in Hkind. unfold attempt in Hscan.
        destruct (super_send_shipping [sub] [p] (set_carrier_id p sub st))
          as [st1 [l1 | e | b]] eqn:Hcall.
        -- injection Hscan as <- <-.
           destruct l1; [| discriminate]. now apply none_empty_booking.
        -- apply (none_after_failure _ _ _ _ _ st1 _ e); eauto.
        -- discriminate.
Qed.

(** The loop returns exactly when every picking was booked in turn, and what
    it returns is the results so far followed by the pickings' lists. *)
Lemma send_each_booked (carrier : nat) (pickings : list picking) :
  forall (res out : list shipping_result) (st st' : store H),
    send_each carrier pickings res st = (st', Return out)
    <-> exists parts,
          booked_in_turn carrier pickings st st' parts
          /\ out = res ++ concat parts.
Proof.
  induction pickings as [| p rest IH]; intros res out st st'; simpl.
  - split.
    + intros Hrun. injection Hrun as <- <-. exists [].
      split; [constructor | simpl; now rewrite app_nil_r].
    + intros [parts [Hbooked ->]]. inversion Hbooked; subst. simpl.
      now rewrite app_nil_r.
  - fold (candidates_for carrier p). split.
    + intros Hrun.
      destruct (scan_children carrier p (candidates_for carrier p) st)
        as [st1 [picking_res | e | b]] eqn:Hscan; try discriminate.
      destruct picking_res as [l |]; simpl in Hrun; [| discriminate].
      destruct (nonempty l) eqn:Hl; simpl in Hrun; [| discriminate].
      apply IH in Hrun. destruct Hrun as [parts [Hbooked ->]].
      exists (l :: parts). split.
      * apply (booked_next _ _ _ _ st1); [| assumption].
        apply scan_children_books. split; [assumption |].
        intros ->. discriminate.
      * simpl. now rewrite app_assoc.
    + intros [parts [Hbooked ->]].
      inversion Hbooked as [| p0 rest0 st0 st1 st2 l parts0 Hbooks Hrest]; subst.
      apply scan_children_books in Hbooks. destruct Hbooks as [Hscan Hl].
      rewrite Hscan. destruct l as [| r l]; [contradiction |]. simpl.
      apply IH. exists parts0. split; [assumption |].
      simpl. now rewrite <- app_assoc.
Qed.

(** C2, amended.  On a destination grid, when the candidate children of a
    picking (the children passing the company filter, in stored order) are
    fixed-price children that do not match its recipient, followed by a
    fixed-price child that does, the picking gets the single result made of
    that child's fixed price and no tracking number; the scan stops there, on
    the store it started from, and the result owes nothing to the inherited
    booking, which is not called. *)
Theorem fixed_child_first_match
    (self : nat) (p : picking) (pre : list nat) (f : nat) (post : list nat) :
  destination_type (carriers self) = Some multi ->
  List.filter (same_company p) (child_ids (carriers self)) = pre ++ f :: post ->
  (forall x, In x pre ->
     delivery_type (carriers x) = "fixed"
     /\ _match_address x (partner_id p) = false) ->
  delivery_type (carriers f) = "fixed" ->
  _match_address f (partner_id p) = true ->
  (forall st,
     scan_children self p (pre ++ f :: post) st
     = (st, Return (Some (fixed_result f))))
  /\ (forall rest res st,
        send_each self (p :: rest) res st
        = send_each self rest (res ++ fixed_result f) st)
  /\ (forall st, send_shipping [self] [p] st = (st, Return (fixed_result f))).
Proof.
  intros Hdest Hsubs Hpre Hfixed Hmatch.
  assert (forall st,
     scan_children self p (pre ++ f :: post) st
     = (st, Return (Some (fixed_result f)))) as Hscan.
  { intros st. rewrite scan_children_skip_fixed by assumption.
    simpl. now rewrite Hfixed, Hmatch. }
  assert (forall rest res st,
        send_each self (p :: rest) res st
        = send_each self rest (res ++ fixed_result f) st) as Heach.
  { intros rest res st. simpl. rewrite Hsubs, Hscan. reflexivity. }
  repeat split; try assumption.
  intros st. rewrite (send_shipping_multi _ _ _ Hdest), Heach. reflexivity.
Qed.

(** C3. On a destination grid, an exception raised by the inherited booking
    of a child that is not fixed-price is swallowed: the scan goes on with the
    next candidate, the picking pointing to the parent again.  The only
    exception [send_shipping] raises is the validation error
    [There is no matching delivery rule.].  It raises it exactly when, the
    pickings before some picking having each been booked by a child, no
    candidate child produced a result for that picking: every candidate tried
    was a fixed-price child that rejects the recipient or a child whose
    inherited booking raised, up to the end of the candidates or to a child
    whose inherited booking returned an empty list. *)
Theorem send_shipping_error_handling (self : nat) :
  destination_type (carriers self) = Some multi ->
  (forall p sub rest st st1 e,
     String.eqb (delivery_type (carriers sub)) "fixed" = false ->
     super_send_shipping [sub] [p] (set_carrier_id p sub st) = (st1, Raise e) ->
     scan_children self p (sub :: rest) st
     = scan_children self p rest (set_carrier_id p self st1))
  /\ (forall pickings st st' e,
        send_shipping [self] pickings st = (st', Raise e) ->
        e = no_matching_rule)
  /\ (forall pickings st st',
        send_shipping [self] pickings st = (st', Raise no_matching_rule)
        <-> exists pre p post st1 parts,
              pickings = pre ++ p :: post
              /\ booked_in_turn self pre st st1 parts
              /\ no_child_books self p (candidates_for self p) st1 st').
Proof.
  intros Hdest. split; [| split].
  - intros p sub rest st st1 e Hkind Hcall. simpl.
    rewrite Hkind, (attempt_outcome _ _ _ _ _ _ Hcall). reflexivity.
  - intros pickings st st' e Hrun.
    rewrite (send_shipping_multi _ _ _ Hdest) in Hrun.
    now apply send_each_raise in Hrun.
  - intros pickings st st'.
    rewrite (send_shipping_multi _ _ _ Hdest). split.
    + intros Hrun. apply send_each_raise in Hrun.
      destruct Hrun
        as [_ [pre [p [post [res [st1 [pr [-> [Hpre [Hscan Hno]]]]]]]]]].
      apply send_each_booked in Hpre. destruct Hpre as [parts [Hbooked _]].
      exists pre, p, post, st1, parts. repeat split; try assumption.
      apply scan_children_no_result. exists pr. auto.
    + intros [pre [p [post [st1 [parts [-> [Hbooked Hnone]]]]]]].
      apply scan_children_no_result in Hnone.
      destruct Hnone as [pr [Hscan Hno]].
      assert (send_each self pre [] st = (st1, Return ([] ++ concat parts)))
        as Hpre.
      { apply send_each_booked. exists parts. auto. }
      rewrite (send_each_app _ _ _ _ _ _ _ Hpre). simpl.
      unfold candidates_for in Hscan. now rewrite Hscan, Hno.
Qed.

(** *** The picking's carrier reference *)

(** An attempt leaves every reference as it was or pointing to the parent. *)
Lemma attempt_frame (carrier sub : nat) (p : picking) (st : store H) (k : nat) :
  booking_frame ->
  picking_carrier (fst (attempt carrier sub p st)) !! k = Some carrier
  \/ picking_carrier (fst (attempt carrier sub p st)) !! k = picking_carrier st !! k.
Proof.
  intros Hframe.
  destruct (Nat.eq_dec k (picking_id p)) as [-> | Hne].
  - left. apply attempt_carrier_id.
  - right. specialize (Hframe sub p (set_carrier_id p sub st) k Hne).
    unfold attempt.
    destruct (super_send_shipping [sub] [p] (set_carrier_id p sub st)) as [st1 r].
    simpl in *.
    rewrite lookup_insert_ne by congruence.
    rewrite Hframe. apply lookup_insert_ne. congruence.
Qed.

Lemma scan_children_frame (carrier : nat) (p : picking) (subs : list nat) (k : nat) :
  booking_frame ->
  forall st : store H,
    picking_carrier (fst (scan_children carrier p subs st)) !! k = Some carrier
    \/ picking_carrier (fst (scan_children carrier p subs st)) !! k
       = picking_carrier st !! k.
Proof.
  intros Hframe.
  induction subs as [| sub rest IH]; intros st; simpl.
  - now right.
  - destruct (String.eqb (delivery_type (carriers sub)) "fixed").
    + destruct (_match_address sub (partner_id p)); [now right | apply IH].
    + pose proof (attempt_frame carrier sub p st k Hframe) as Hattempt.
      destruct (attempt carrier sub p st) as [st1 [l | e | b]]; simpl in *;
        try assumption.
      destruct (IH st1) as [Hparent | Hsame]; [now left |].
      rewrite Hsame. assumption.
Qed.

Lemma send_each_frame (carrier : nat) (pickings : list picking) (k : nat) :
  booking_frame ->
  forall (res : list shipping_result) (st : store H),
    picking_carrier (fst (send_each carrier pickings res st)) !! k = Some carrier
    \/ picking_carrier (fst (send_each carrier pickings res st)) !! k
       = picking_carrier st !! k.
Proof.
  intros Hframe.
  induction pickings as [| p rest IH]; intros res st; simpl.
  - now right.
  - pose proof (scan_children_frame carrier p
                  (List.filter (same_company p) (child_ids (carriers carrier)))
                  k Hframe st) as Hscan.
    destruct (scan_children carrier p
                (List.filter (same_company p) (child_ids (carriers carrier))) st)
      as [st1 [picking_res | e | b]]; simpl in *; try assumption.
    destruct (no_result picking_res); simpl; [assumption |].
    match goal with
    | |- context [send_each carrier rest ?r st1] =>
        destruct (IH r st1) as [Hparent | Hsame]
    end; [now left |].
    rewrite Hsame. assumption.
Qed.

(** C4, amended.  On a destination grid, after the inherited booking of a
    child that is not fixed-price has been attempted for a picking, the
    picking's carrier reference is the parent carrier, on every exit path
    (result, swallowed exception, propagated interruption).  Hence, the
    inherited booking leaving the references of other pickings alone, when
    [send_shipping] returns or raises (the validation error included), every
    picking's carrier reference is either the one it had before the call or
    the parent carrier; it is unchanged for every picking that pointed to the
    parent carrier before the call. *)
Theorem carrier_reference_set_to_parent
    (self : nat) (pickings : list picking) (st : store H) :
  destination_type (carriers self) = Some multi ->
  booking_frame ->
  (forall sub p s, carrier_id (fst (attempt self sub p s)) p = Some self)
  /\ (forall q,
        carrier_id (fst (send_shipping [self] pickings st)) q = Some self
        \/ carrier_id (fst (send_shipping [self] pickings st)) q = carrier_id st q)
  /\ (forall q,
        carrier_id st q = Some self ->
        carrier_id (fst (send_shipping [self] pickings st)) q = carrier_id st q).
Proof.
  intros Hdest Hframe.
  assert (forall q,
        carrier_id (fst (send_shipping [self] pickings st)) q = Some self
        \/ carrier_id (fst (send_shipping [self] pickings st)) q = carrier_id st q)
    as Hcall.
  { intros q. rewrite (send_shipping_multi _ _ _ Hdest).
    apply send_each_frame, Hframe. }
  split; [| split].
  - intros sub p s. apply attempt_carrier_id.
  - exact Hcall.
  - intros q Hq. destruct (Hcall q) as [Hparent | Hsame]; congruence.
Qed.


End Shipping.

(** *** The booking theorems on the example database *)

(** The example booking never writes a carrier reference. *)
Lemma example_booking_frame : @booking_frame nat Q example_host.
Proof. intros sub p s k _. reflexivity. Qed.

(** C2 on grid 30: its first child, 31, is fixed-price and delivers to the
    recipient; the booking is never called (the host counter stays at 0). *)
Lemma fixed_child_first_match_witness :
  @send_shipping nat Q example_host [30] [example_picking] example_store
  = (example_store, Return [ {| exact_price := 7; tracking_number := None |} ]).
Proof.
  apply (proj2 (proj2 (@fixed_child_first_match nat Q example_host
                         30 example_picking [] 31 [32]
                         eq_refl eq_refl
                         ltac:(intros x [])
                         eq_refl eq_refl))).
Defined.

(** C2 as stated fails on grid 1: child 3 is fixed-price and delivers to the
    recipient, yet the picking gets the booking of child 2, which stands
    before it and is rule based; the inherited booking has been called once. *)
Lemma fixed_child_counterexample :
  destination_type (example_carriers 1) = Some multi
  /\ In 3 (child_ids (example_carriers 1))
  /\ @same_company nat Q example_host example_picking 3 = true
  /\ delivery_type (example_carriers 3) = "fixed"
  /\ example_match_address 3 (partner_id example_picking) = true
  /\ snd (@send_shipping nat Q example_host [1] [example_picking] example_store)
     = Return [ {| exact_price := 11; tracking_number := Some "T2" |} ]
  /\ snd (@send_shipping nat Q example_host [1] [example_picking] example_store)
     <> Return (@fixed_result nat Q example_host 3)
  /\ host (fst (@send_shipping nat Q example_host [1] [example_picking]
                  example_store)) = 1.
Proof.
  repeat split; try reflexivity.
  - simpl. tauto.
  - vm_compute. discriminate.
Qed.

(** C3 on grid 20: the booking of its only child fails, the failure is
    swallowed and the validation error is raised. *)
Lemma send_shipping_error_handling_witness :
  @send_shipping nat Q example_host [20] [example_picking] example_store
  = ({| picking_carrier := {[ 7 := 20 ]}; host := 1 |}, Raise no_matching_rule).
Proof.
  apply (proj2 (proj2 (@send_shipping_error_handling nat Q example_host 20 eq_refl))).
  exists [], example_picking, [], example_store, [].
  split; [reflexivity | split; [constructor |]].
  refine (@none_after_failure nat Q example_host 20 example_picking 21 []
            example_store {| picking_carrier := {[ 7 := 21 ]}; host := 1 |} _
            (UserError "No price rule matching this order.") _ _ _).
  - discriminate.
  - reflexivity.
  - exact (@none_left nat Q example_host 20 example_picking
             {| picking_carrier := {[ 7 := 20 ]}; host := 1 |}).
Defined.

(** C4 on grid 20 and a picking that points to it: the reference is the same
    after the call, which raises. *)
Lemma carrier_reference_set_to_parent_witness :
  carrier_id
    (fst (@send_shipping nat Q example_host [20] [example_picking]
            (example_store_with 20)))
    example_picking
  = carrier_id (example_store_with 20) example_picking.
Proof.
  apply (proj2 (proj2 (@carrier_reference_set_to_parent nat Q example_host
                         20 [example_picking] (example_store_with 20)
                         eq_refl example_booking_frame))).
  reflexivity.
Defined.

(** C4 as stated fails on grid 20 and a picking that points to carrier 99
    before the call: the call raises the validation error and leaves the
    picking pointing to 20. *)
Lemma carrier_reference_counterexample :
  destination_type (example_carriers 20) = Some multi
  /\ carrier_id (example_store_with 99) example_picking = Some 99
  /\ snd (@send_shipping nat Q example_host [20] [example_picking]
            (example_store_with 99))
     = Raise no_matching_rule
  /\ carrier_id
       (fst (@send_shipping nat Q example_host [20] [example_picking]
               (example_store_with 99)))
       example_picking
     = Some 20
  /\ carrier_id
       (fst (@send_shipping nat Q example_host [20] [example_picking]
               (example_store_with 99)))
       example_picking
     <> carrier_id (example_store_with 99) example_picking.
Proof.
  repeat split; try reflexivity.
  vm_compute. discriminate.
Qed.



(** * Further properties *)

(** ** Field synchronisation *)

Section MoreFields.

(** What a loop body keeps, the loop keeps, on every row. *)
Lemma for_each_keeps {A : Type} (f : carrier -> A) (body : carrier -> carrier)
    (self : list nat) :
  (forall r, f (body r) = f r) ->
  forall (tbl : table) (c : nat), f (for_each body self tbl c) = f (tbl c).
Proof.
  intros Hkeeps.
  induction self as [| id rest IH]; intros tbl c; simpl.
  - reflexivity.
  - rewrite IH. unfold assign.
    destruct (Nat.eqb_spec c id) as [-> | _]; [apply Hkeeps | reflexivity].
Qed.

Lemma compute_row_keeps (r : carrier) :
  let r' := compute_destination_type_row r in
  delivery_type r' = delivery_type r /\ company_id r' = company_id r
  /\ fixed_price r' = fixed_price r /\ child_ids r' = child_ids r
  /\ parent_id r' = parent_id r.
Proof.
  unfold compute_destination_type_row.
  destruct (String.eqb (delivery_type r) "base_on_destination"); simpl; auto.
Qed.

Lemma inverse_row_keeps (r : carrier) :
  let r' := inverse_destination_type_row r in
  destination_type r' = destination_type r /\ company_id r' = company_id r
  /\ fixed_price r' = fixed_price r /\ child_ids r' = child_ids r
  /\ parent_id r' = parent_id r.
Proof.
  unfold inverse_destination_type_row.
  destruct (destination_type_is r multi); simpl; auto.
  destruct (String.eqb (delivery_type r) "base_on_destination"); simpl; auto.
Qed.

(** X1. [_compute_destination_type] writes [destination_type] and nothing
    else, [_inverse_destination_type] writes [delivery_type] and nothing else:
    company, fixed price, children and parent of every row are kept, and the
    rows outside the recordset are left as they are. *)
Theorem synchronisation_frame (tbl : table) (self : list nat) (c : nat) :
  (delivery_type (_compute_destination_type self tbl c) = delivery_type (tbl c)
   /\ company_id (_compute_destination_type self tbl c) = company_id (tbl c)
   /\ fixed_price (_compute_destination_type self tbl c) = fixed_price (tbl c)
   /\ child_ids (_compute_destination_type self tbl c) = child_ids (tbl c)
   /\ parent_id (_compute_destination_type self tbl c) = parent_id (tbl c))
  /\ (destination_type (_inverse_destination_type self tbl c)
      = destination_type (tbl c)
      /\ company_id (_inverse_destination_type self tbl c) = company_id (tbl c)
      /\ fixed_price (_inverse_destination_type self tbl c) = fixed_price (tbl c)
      /\ child_ids (_inverse_destination_type self tbl c) = child_ids (tbl c)
      /\ parent_id (_inverse_destination_type self tbl c) = parent_id (tbl c))
  /\ (~ In c self ->
      _compute_destination_type self tbl c = tbl c
      /\ _inverse_destination_type self tbl c = tbl c).
Proof.
  unfold _compute_destination_type, _inverse_destination_type.
  split; [| split].
  - repeat split; apply for_each_keeps; intros r; apply (compute_row_keeps r).
  - repeat split; apply for_each_keeps; intros r; apply (inverse_row_keeps r).
  - intros Hout. split; now apply for_each_other.
Qed.

Lemma inverse_after_compute_row (r : carrier) :
  inverse_destination_type_row (compute_destination_type_row r)
  = compute_destination_type_row r.
Proof.
  unfold compute_destination_type_row.
  destruct (String.eqb_spec (delivery_type r) "base_on_destination") as [E | E].
  - unfold inverse_destination_type_row, destination_type_is. simpl.
    destruct r as [dl ds co fp ch pa]. simpl in *. now subst dl.
  - unfold inverse_destination_type_row, destination_type_is. simpl.
    destruct (String.eqb_spec (delivery_type r) "base_on_destination");
      [contradiction | reflexivity].
Qed.

Lemma compute_after_inverse_row (r : carrier) :
  destination_type r <> None ->
  compute_destination_type_row (inverse_destination_type_row r)
  = inverse_destination_type_row r.
Proof.
  intros Hset.
  unfold inverse_destination_type_row, destination_type_is.
  destruct r as [dl [[|]|] co fp ch pa]; simpl in *; try contradiction.
  - destruct (String.eqb dl "base_on_destination") eqn:E;
      unfold compute_destination_type_row; simpl; [reflexivity |].
    now rewrite E.
  - reflexivity.
Qed.

(** X2. The two methods agree.  Once [destination_type] has been computed,
    running the inverse changes nothing: it does not reset a delivery type.
    And once the inverse has run on a carrier whose [destination_type] is set,
    recomputing changes nothing: the value the user chose stays. *)
Theorem compute_inverse_agree (tbl : table) (self : list nat) (c : nat) :
  In c self ->
  _inverse_destination_type self (_compute_destination_type self tbl) c
  = _compute_destination_type self tbl c
  /\ (destination_type (tbl c) <> None ->
      _compute_destination_type self (_inverse_destination_type self tbl) c
      = _inverse_destination_type self tbl c).
Proof.
  intros Hin. unfold _compute_destination_type, _inverse_destination_type.
  rewrite !(for_each_in _ _ inverse_row_idempotent) by assumption.
  rewrite !(for_each_in _ _ compute_row_idempotent) by assumption.
  rewrite (for_each_in _ _ inverse_row_idempotent) by assumption.
  split.
  - apply inverse_after_compute_row.
  - apply compute_after_inverse_row.
Qed.

Lemma compute_inverse_agree_witness :
  _inverse_destination_type [1; 2] (_compute_destination_type [1; 2] example_carriers) 2
  = _compute_destination_type [1; 2] example_carriers 2.
Proof.
  apply (proj1 (compute_inverse_agree example_carriers [1; 2] 2
                  (or_intror (or_introl eq_refl)))).
Defined.

(** X3. Switching a carrier to [multi] and back to [one] does not bring its
    former delivery type back: whatever it was, it is [fixed] afterwards. *)
Theorem toggle_loses_delivery_type (tbl : table) (self : list nat) (c : nat) :
  In c self ->
  delivery_type
    (write self (WriteDestinationType (Some one))
       (write self (WriteDestinationType (Some multi)) tbl) c)
  = "fixed"
  /\ destination_type
       (write self (WriteDestinationType (Some one))
          (write self (WriteDestinationType (Some multi)) tbl) c)
     = Some one.
Proof.
  intros Hin. simpl. unfold _inverse_destination_type.
  rewrite !(for_each_in _ _ inverse_row_idempotent) by assumption.
  rewrite (for_each_in _ _ (set_destination_type_idempotent (Some one)))
    by assumption.
  rewrite (for_each_in _ _ inverse_row_idempotent) by assumption.
  rewrite (for_each_in _ _ (set_destination_type_idempotent (Some multi)))
    by assumption.
  split; reflexivity.
Qed.

(** Carrier 2 of the example database is rule based; after the two writes it
    is fixed-price. *)
Lemma toggle_loses_delivery_type_witness :
  delivery_type (example_carriers 2) = "base_on_rule"
  /\ delivery_type
       (write [2] (WriteDestinationType (Some one))
          (write [2] (WriteDestinationType (Some multi)) example_carriers) 2)
     = "fixed".
Proof.
  split; [reflexivity |].
  apply (toggle_loses_delivery_type example_carriers [2] 2).
  simpl. left. reflexivity.
Defined.

Lemma write_row_idempotent (w : field_write) (r : carrier) :
  match w with
  | WriteDeliveryType v =>
      compute_destination_type_row
        (set_delivery_type v (compute_destination_type_row (set_delivery_type v r)))
      = compute_destination_type_row (set_delivery_type v r)
  | WriteDestinationType v =>
      inverse_destination_type_row
        (set_destination_type v
           (inverse_destination_type_row (set_destination_type v r)))
      = inverse_destination_type_row (set_destination_type v r)
  end.
Proof.
  destruct w as [v | v].
  - unfold compute_destination_type_row. simpl.
    destruct (String.eqb v "base_on_destination") eqn:E; simpl; rewrite ?E;
      reflexivity.
  - unfold inverse_destination_type_row, destination_type_is. simpl.
    destruct v as [[|]|]; simpl; try reflexivity;
      destruct (String.eqb (delivery_type r) "base_on_destination") eqn:E;
      simpl; rewrite ?E; reflexivity.
Qed.

(** X4. Writing the same value twice is writing it once: the second write
    leaves every row as the first one left it. *)
Theorem write_idempotent (self : list nat) (w : field_write) (tbl : table) (c : nat) :
  write self w (write self w tbl) c = write self w tbl c.
Proof.
  destruct (in_dec Nat.eq_dec c self) as [Hin | Hout].
  - pose proof (write_row_idempotent w (tbl c)) as Hrow.
    destruct w as [v | v]; simpl;
      unfold _compute_destination_type, _inverse_destination_type.
    + rewrite !(for_each_in _ _ compute_row_idempotent) by assumption.
      rewrite !(for_each_in _ _ (set_delivery_type_idempotent v)) by assumption.
      rewrite (for_each_in _ _ compute_row_idempotent) by assumption.
      rewrite (for_each_in _ _ (set_delivery_type_idempotent v)) by assumption.
      exact Hrow.
    + rewrite !(for_each_in _ _ inverse_row_idempotent) by assumption.
      rewrite !(for_each_in _ _ (set_destination_type_idempotent v)) by assumption.
      rewrite (for_each_in _ _ inverse_row_idempotent) by assumption.
      rewrite (for_each_in _ _ (set_destination_type_idempotent v)) by assumption.
      exact Hrow.
  - destruct w as [v | v]; simpl;
      unfold _compute_destination_type, _inverse_destination_type;
      now rewrite !for_each_other by assumption.
Qed.

End MoreFields.

(** ** Product suggestion on the form *)

Section MoreForm.
Context {H R : Type} `{!Host H R}.

(** [OrderedSet] keeps what it has seen in front. *)
Lemma ordered_set_prefix (ids : list nat) :
  forall seen : list nat, exists extra, ordered_set seen ids = seen ++ extra.
Proof.
  induction ids as [| id rest IH]; intros seen; simpl.
  - exists []. now rewrite app_nil_r.
  - destruct (existsb (Nat.eqb id) seen).
    + apply IH.
    + destruct (IH (seen ++ [id])) as [extra Hextra].
      exists (id :: extra). rewrite Hextra, <- app_assoc. reflexivity.
Qed.

Lemma first_ordered_set (ids : list nat) :
  first (ordered_set [] ids) = first ids.
Proof.
  destruct ids as [| id rest]; simpl; [reflexivity |].
  destruct (ordered_set_prefix rest [id]) as [extra ->]. reflexivity.
Qed.

(** The first of the children's products is the product of the first child
    that has one. *)
Lemma first_mapped_product_id (products : gmap nat nat) (records : list nat) :
  first (mapped_product_id products records)
  = match List.find (fun c => match products !! c with
                              | Some _ => true | None => false end) records with
    | Some c => products !! c
    | None => None
    end.
Proof.
  unfold mapped_product_id. rewrite first_ordered_set.
  induction records as [| c rest IH]; simpl.
  - reflexivity.
  - destruct (products !! c) as [p |] eqn:Hc; simpl.
    + now rewrite Hc.
    + exact IH.
Qed.

(** X5. The onchange never replaces or clears a product that is set, on the
    carrier of the form or on any other. *)
Theorem onchange_keeps_products
    (self : nat) (products : gmap nat nat) (k q : nat) :
  products !! k = Some q ->
  _onchange_destination_type self products !! k = Some q.
Proof.
  intros Hk. unfold _onchange_destination_type.
  destruct (products !! self) as [p |] eqn:Hself.
  - now rewrite andb_false_r.
  - assert (k <> self) as Hne by congruence.
    destruct (destination_type_is (carriers self) multi
              && nonempty (child_ids (carriers self)) && negb false);
      [| assumption].
    unfold set_product_id.
    destruct (first (mapped_product_id products (child_ids (carriers self)))).
    + rewrite lookup_insert_ne by congruence. assumption.
    + rewrite lookup_delete_ne by congruence. assumption.
Qed.

(** X6. On a destination grid without a product, the onchange sets the
    product of the first child, in stored order, that has one; when no child
    has a product (or there is no child), the grid stays without. *)
Theorem onchange_takes_first_child_product
    (self : nat) (products : gmap nat nat) :
  destination_type (carriers self) = Some multi ->
  products !! self = None ->
  _onchange_destination_type self products !! self
  = match List.find (fun c => match products !! c with
                              | Some _ => true | None => false end)
                    (child_ids (carriers self)) with
    | Some c => products !! c
    | None => None
    end.
Proof.
  intros Hdest Hself. rewrite <- first_mapped_product_id.
  unfold _onchange_destination_type, destination_type_is.
  rewrite Hdest, Hself.
  destruct (child_ids (carriers self)) as [| c rest] eqn:Hchildren.
  - exact Hself.
  - cbn -[mapped_product_id first]. unfold set_product_id.
    destruct (first (mapped_product_id products (c :: rest))) as [p |].
    + apply lookup_insert_eq.
    + apply lookup_delete_eq.
Qed.

(** X7. Running the onchange again changes nothing. *)
Theorem onchange_idempotent (self : nat) (products : gmap nat nat) :
  _onchange_destination_type self (_onchange_destination_type self products)
  = _onchange_destination_type self products.
Proof.
  unfold _onchange_destination_type at 2 3.
  destruct (destination_type_is (carriers self) multi
            && nonempty (child_ids (carriers self))
            && negb match products !! self with
                    | Some _ => true | None => false end) eqn:Hguard.
  - apply andb_prop in Hguard. destruct Hguard as [_ Hunset].
    destruct (products !! self) eqn:Hself; [discriminate |].
    unfold set_product_id.
    destruct (first (mapped_product_id products (child_ids (carriers self))))
      as [p |] eqn:Hfirst.
    + unfold _onchange_destination_type.
      rewrite lookup_insert_eq. cbn [negb]. now rewrite andb_false_r.
    + rewrite (delete_id _ _ Hself).
      unfold _onchange_destination_type.
      rewrite Hself, Hfirst. simpl.
      destruct (destination_type_is (carriers self) multi
                && nonempty (child_ids (carriers self)) && true);
        [apply (delete_id _ _ Hself) | reflexivity].
  - unfold _onchange_destination_type. now rewrite Hguard.
Qed.

End MoreForm.

(** X5 on the example database: grid 1 keeps nothing it did not have, and
    child 3 keeps its product. *)
Lemma onchange_keeps_products_witness :
  @_onchange_destination_type nat Q example_host 1 example_products !! 3
  = Some 500.
Proof.
  apply (@onchange_keeps_products nat Q example_host 1 example_products 3 500).
  reflexivity.
Defined.

(** X6 on grid 30: child 31 has no product, child 32 has product 900. *)
Lemma onchange_takes_first_child_product_witness :
  @_onchange_destination_type nat Q example_host 30 example_products !! 30
  = Some 900.
Proof.
  refine (eq_trans
    (@onchange_takes_first_child_product nat Q example_host 30 example_products
       eq_refl eq_refl) _).
  reflexivity.
Defined.

(** ** The listing filter and the caller's list *)

Section MoreListing.
Context {H R : Type} `{!Host H R}.

(** X8. A default search extends the very list the caller passed: the
    caller's list ends with one more [("parent_id", "=", False)] leaf after the
    call, and with [n] more after [n] calls; the other lists are untouched, and
    the records found are those of [search] on the list as it was.  With the
    flag set, the caller's list is left alone. *)
Theorem search_extends_the_callers_list
    (ctx : gmap string value) (heap : gmap nat domain) (r : nat) (d : domain)
    (offset : nat) (limit : option nat) (order : option string) (count : bool) :
  heap !! r = Some d ->
  (truthy (context_get ctx "show_children_carriers") = false ->
     snd (search_in_place ctx heap (Some r) offset limit order count)
       = search ctx (Some d) offset limit order count
     /\ fst (search_in_place ctx heap (Some r) offset limit order count) !! r
        = Some (d ++ [no_parent])
     /\ (forall k, k <> r ->
           fst (search_in_place ctx heap (Some r) offset limit order count) !! k
           = heap !! k)
     /\ (forall n,
           search_repeatedly n ctx heap r !! r = Some (d ++ repeat no_parent n)))
  /\ (truthy (context_get ctx "show_children_carriers") = true ->
     search_in_place ctx heap (Some r) offset limit order count
     = (heap, search ctx (Some d) offset limit order count)).
Proof.
  intros Hr. split; intros Hflag.
  - repeat split.
    + unfold search_in_place, search. unfold domain in *. rewrite Hflag. cbn [negb].
      now rewrite Hr.
    + unfold search_in_place. unfold domain in *. rewrite Hflag. cbn [negb]. rewrite Hr.
      apply lookup_insert_eq.
    + intros k Hk. unfold search_in_place. unfold domain in *. rewrite Hflag. cbn [negb].
      rewrite Hr. apply lookup_insert_ne. congruence.
    + intros n. revert heap d Hr.
      induction n as [| n IH]; intros heap d Hr; simpl.
      * now rewrite app_nil_r.
      * rewrite (IH _ (d ++ [no_parent])).
        -- now rewrite <- app_assoc.
        -- unfold search_in_place. unfold domain in *. rewrite Hflag. cbn [negb]. rewrite Hr.
           apply lookup_insert_eq.
  - unfold search_in_place, search. unfold domain in *. rewrite Hflag. cbn [negb].
    change (Some r ≫= (heap !!.)) with (heap !! r). now rewrite Hr.
Qed.

End MoreListing.

(** X8 on the example database: after two default searches on the same
    empty list, the list holds the leaf twice. *)
Lemma search_extends_the_callers_list_witness :
  @search_repeatedly nat Q example_host 2 ∅ {[ 0 := [] ]} 0 !! 0
  = Some [no_parent; no_parent].
Proof.
  refine (proj2 (proj2 (proj2
    (proj1 (@search_extends_the_callers_list nat Q example_host
              ∅ {[ 0 := [] ]} 0 [] 0 None None false _) _))) 2).
  - reflexivity.
  - reflexivity.
Defined.

(** ** Availability *)

Section MoreAvailability.
Context {H R : Type} `{!Host H R}.

Lemma existsb_eqb_false (x : nat) (l : list nat) :
  existsb (Nat.eqb x) l = false <-> ~ In x l.
Proof.
  split.
  - intros Hfalse Hin.
    assert (existsb (Nat.eqb x) l = true) as Htrue.
    { apply existsb_exists. exists x. split; [assumption | apply Nat.eqb_refl]. }
    congruence.
  - intros Hout. destruct (existsb (Nat.eqb x) l) eqn:E; [| reflexivity].
    apply existsb_exists in E. destruct E as [y [Hy Heq]].
    apply Nat.eqb_eq in Heq. subst y. contradiction.
Qed.

Lemma NoDup_snoc (l : list nat) (x : nat) :
  List.NoDup l -> ~ In x l -> List.NoDup (l ++ [x]).
Proof.
  intros Hl Hx. induction Hl as [| y l Hy Hl IH]; simpl.
  - constructor; [simpl; tauto | constructor].
  - constructor.
    + rewrite in_app_iff. simpl. intros [Hin | [Heq | []]].
      * contradiction.
      * apply Hx. left. congruence.
    + apply IH. intros Hin. apply Hx. now right.
Qed.

Lemma ordered_set_NoDup (ids : list nat) :
  forall seen : list nat, List.NoDup seen -> List.NoDup (ordered_set seen ids).
Proof.
  induction ids as [| id rest IH]; intros seen Hseen; simpl.
  - assumption.
  - destruct (existsb (Nat.eqb id) seen) eqn:E.
    + now apply IH.
    + apply IH, NoDup_snoc; [assumption | now apply existsb_eqb_false].
Qed.

(** Ids without repetition go through [OrderedSet] as they are. *)
Lemma ordered_set_seen (s : list nat) :
  forall acc l : list nat,
    List.NoDup (acc ++ s) -> ordered_set acc (s ++ l) = ordered_set (acc ++ s) l.
Proof.
  induction s as [| x s IH]; intros acc l Hnodup; simpl.
  - now rewrite app_nil_r.
  - assert (~ In x acc) as Hx.
    { apply NoDup_remove_2 in Hnodup. intros Hin. apply Hnodup.
      apply in_app_iff. now left. }
    apply existsb_eqb_false in Hx. rewrite Hx.
    replace (acc ++ x :: s) with ((acc ++ [x]) ++ s) in *
      by now rewrite <- app_assoc.
    now apply IH.
Qed.

Lemma available_loop_filter (partner : nat) (self : list nat) :
  forall available : list nat,
    List.NoDup available ->
    available_loop self partner available
    = ordered_set available (List.filter (passes partner) self).
Proof.
  induction self as [| carrier rest IH]; intros available Hnodup; simpl.
  - reflexivity.
  - unfold passes at 1. fold (passes partner carrier).
    destruct (passes partner carrier) eqn:Hpass.
    + assert (recordset_or available [carrier] = ordered_set available [carrier])
        as Hor.
      { unfold recordset_or.
        rewrite (ordered_set_seen available [] [carrier]); [reflexivity |].
        exact Hnodup. }
      rewrite IH.
      * rewrite Hor. simpl.
        now destruct (existsb (Nat.eqb carrier) available).
      * rewrite Hor. now apply ordered_set_NoDup.
    + now apply IH.
Qed.

(** X9. [available_carriers] returns the carriers of the input that pass the
    inherited check on their candidates, in the order of the input and each
    once, even when the input repeats some. *)
Theorem available_carriers_filters_in_order (self : list nat) (partner : nat) :
  available_carriers self partner
  = ordered_set [] (List.filter (passes partner) self)
  /\ List.NoDup (available_carriers self partner)
  /\ (forall c, In c (available_carriers self partner) -> In c self).
Proof.
  assert (available_carriers self partner
          = ordered_set [] (List.filter (passes partner) self)) as Heq.
  { apply available_loop_filter. constructor. }
  split; [exact Heq | split].
  - rewrite Heq. apply ordered_set_NoDup. constructor.
  - intros c Hin. rewrite Heq in Hin.
    apply ordered_set_In in Hin. destruct Hin as [[] | Hin].
    apply filter_In in Hin. tauto.
Qed.

(** X10. A carrier that is not of type [one] is judged on its children alone:
    without children it is never available, whatever its own address rules,
    the inherited check finding nothing in an empty recordset. *)
Theorem childless_grid_unavailable (self : list nat) (partner c : nat) :
  destination_type (carriers c) <> Some one ->
  child_ids (carriers c) = [] ->
  super_available_carriers [] partner = [] ->
  ~ In c (available_carriers self partner).
Proof.
  intros Hdest Hchildren Hempty Hin.
  apply available_carriers_In in Hin. destruct Hin as [_ Hpass].
  unfold candidates, destination_type_is in Hpass.
  destruct (destination_type (carriers c)) as [[|] |];
    try congruence; simpl in Hpass;
    rewrite Hchildren, Hempty in Hpass; discriminate.
Qed.

End MoreAvailability.

(** X10 on the second database: grid 50 has no children; it is not
    available for partner 100, to whom every carrier delivers. *)
Lemma childless_grid_unavailable_witness :
  example_match_address 50 100 = true
  /\ ~ In 50 (@available_carriers nat Q example_host2 [50; 40] 100).
Proof.
  split; [reflexivity |].
  apply (@childless_grid_unavailable nat Q example_host2 [50; 40] 100 50).
  - discriminate.
  - reflexivity.
  - reflexivity.
Defined.

(** ** Rate quotation *)

Section MoreRating.
Context {H R : Type} `{!Host H R}.

Lemma rate_children_find (o : order) (subs : list nat) :
  rate_children subs o
  = match List.find (fun c => _match_address c (partner_shipping_id o)) subs with
    | Some a => result_map Some (super_rate_shipment [a] o)
    | None => Return None
    end.
Proof.
  induction subs as [| sub rest IH]; simpl.
  - reflexivity.
  - destruct (_match_address sub (partner_shipping_id o)); [reflexivity | exact IH].
Qed.

(** X11. A carrier whose [destination_type] is anything but [one], [multi] or
    not set at all, is quoted through its children: the quotation is the
    inherited one of the first child that accepts the shipping address, and
    [None] when there is none.  The carrier's own quotation is not asked. *)
Theorem rate_shipment_routes_unless_one (self : nat) (o : order) :
  destination_type (carriers self) <> Some one ->
  rate_shipment [self] o
  = match List.find (fun c => _match_address c (partner_shipping_id o))
                    (child_ids (carriers self)) with
    | Some a => result_map Some (super_rate_shipment [a] o)
    | None => Return None
    end.
Proof.
  intros Hdest. rewrite <- rate_children_find.
  unfold rate_shipment, read_child_ids. simpl. rewrite app_nil_r.
  destruct (destination_type (carriers self)) as [[|] |];
    [congruence | reflexivity | reflexivity].
Qed.

End MoreRating.

(** X11 on the second database: carrier 51 has no [destination_type]; its
    quotation is that of its first child, 31. *)
Lemma rate_shipment_routes_unless_one_witness :
  @rate_shipment nat Q example_host2 [51]
    {| order_id := 3; partner_shipping_id := 100 |}
  = Return (Some (fixed_price (example_carriers 31))).
Proof.
  refine (eq_trans
    (@rate_shipment_routes_unless_one nat Q example_host2 51
       {| order_id := 3; partner_shipping_id := 100 |} _) _).
  - discriminate.
  - reflexivity.
Defined.

(** ** Shipment booking *)

Section MoreShipping.
Context {H R : Type} `{!Host H R}.

(** Any carrier that is not of type [one] goes through the loop. *)
Lemma send_shipping_routes (self : nat) (pickings : list picking) (st : store H) :
  destination_type (carriers self) <> Some one ->
  send_shipping [self] pickings st = send_each self pickings [] st.
Proof.
  intros Hdest. unfold send_shipping. simpl.
  destruct (destination_type (carriers self)) as [[|] |];
    [congruence | reflexivity | reflexivity].
Qed.

Lemma filter_none {A : Type} (f : A -> bool) (l : list A) :
  (forall x, In x l -> f x = false) -> List.filter f l = [].
Proof.
  induction l as [| x l IH]; intros Hnone; simpl.
  - reflexivity.
  - rewrite (Hnone x) by now left.
    apply IH. intros y Hy. apply Hnone. now right.
Qed.

(** X12. When no child may book the first picking, because the grid has no
    children or because each is restricted to a company that is not the
    picking's, [send_shipping] raises the validation error at once: no
    booking is attempted and the store is as before. *)
Theorem no_candidate_no_rule
    (self : nat) (p : picking) (rest : list picking) (st : store H) :
  destination_type (carriers self) <> Some one ->
  (forall x, In x (child_ids (carriers self)) -> same_company p x = false) ->
  send_shipping [self] (p :: rest) st = (st, Raise no_matching_rule).
Proof.
  intros Hdest Hnone.
  rewrite (send_shipping_routes _ _ _ Hdest). simpl.
  now rewrite (filter_none _ _ Hnone).
Qed.

(** A scan over fixed-price children leaves the store alone. *)
Lemma scan_children_fixed_store (carrier : nat) (p : picking) (subs : list nat) :
  (forall x, In x subs -> delivery_type (carriers x) = "fixed") ->
  forall st : store H, fst (scan_children carrier p subs st) = st.
Proof.
  induction subs as [| sub rest IH]; intros Hfixed st; simpl.
  - reflexivity.
  - rewrite (Hfixed sub) by now left. simpl.
    destruct (_match_address sub (partner_id p)); [reflexivity |].
    apply IH. intros y Hy. apply Hfixed. now right.
Qed.

(** X13. On a carrier all of whose children are fixed-price, [send_shipping]
    never touches the store, whatever the pickings and however it ends: no
    picking is pointed to another carrier and the inherited booking is not
    called. *)
Theorem fixed_grid_keeps_store
    (self : nat) (pickings : list picking) (st : store H) :
  destination_type (carriers self) <> Some one ->
  (forall x, In x (child_ids (carriers self)) ->
             delivery_type (carriers x) = "fixed") ->
  fst (send_shipping [self] pickings st) = st.
Proof.
  intros Hdest Hfixed.
  rewrite (send_shipping_routes _ _ _ Hdest).
  generalize (@nil shipping_result) as res.
  induction pickings as [| p rest IH]; intros res; simpl.
  - reflexivity.
  - pose proof (scan_children_fixed_store self p
                  (List.filter (same_company p) (child_ids (carriers self)))) as Hscan.
    specialize (Hscan (fun x Hx => Hfixed x (proj1 (proj1 (filter_In _ _ _) Hx))) st).
    destruct (scan_children self p
                (List.filter (same_company p) (child_ids (carriers self))) st)
      as [st1 [picking_res | e | b]]; simpl in Hscan; subst st1;
      try reflexivity.
    destruct (no_result picking_res); [reflexivity | apply IH].
Qed.

Lemma concat_length_nonempty {A : Type} (parts : list (list A)) :
  List.Forall (fun l => l <> []) parts -> length parts <= length (concat parts).
Proof.
  induction 1 as [| l parts Hl _ IH]; simpl.
  - lia.
  - rewrite length_app. destruct l; [contradiction | simpl; lia].
Qed.

(** Pickings booked in turn each have their own non-empty list. *)
Lemma booked_in_turn_shape (carrier : nat) (pickings : list picking)
    (st st' : store H) (parts : list (list shipping_result)) :
  booked_in_turn carrier pickings st st' parts ->
  length parts = length pickings /\ List.Forall (fun l => l <> []) parts.
Proof.
  induction 1 as [st | p rest st st1 st2 l parts Hbooks _ [IHlen IHall]]; simpl.
  - split; [reflexivity | constructor].
  - split; [now rewrite IHlen |].
    constructor; [| assumption].
    exact (child_books_nonempty _ _ _ _ _ _ Hbooks).
Qed.

(** X14. [send_shipping] returns exactly when every picking was booked in
    turn by a child among its candidates, each from the store the pickings
    before it left, and what it returns is the pickings' lists put end to end
    in the order of the pickings: for each picking the fixed price of the first
    fixed-price child that accepts its recipient, or the non-empty list the
    inherited booking of a child returned, whichever candidate comes first
    that is not a rejecting fixed-price child or a child whose booking raised.
    There is one such list per picking and none is empty, so the result holds
    at least as many dictionaries as there are pickings. *)
Theorem send_shipping_result_per_picking
    (self : nat) (pickings : list picking) (st st' : store H)
    (out : list shipping_result) :
  destination_type (carriers self) <> Some one ->
  (send_shipping [self] pickings st = (st', Return out)
   <-> exists parts : list (list shipping_result),
         booked_in_turn self pickings st st' parts /\ out = concat parts)
  /\ (forall parts,
        booked_in_turn self pickings st st' parts ->
        length parts = length pickings /\ List.Forall (fun l => l <> []) parts)
  /\ (send_shipping [self] pickings st = (st', Return out) ->
      length pickings <= length out).
Proof.
  intros Hdest.
  rewrite (send_shipping_routes _ _ _ Hdest).
  split; [| split].
  - apply (send_each_booked self pickings [] out st st').
  - intros parts. apply booked_in_turn_shape.
  - intros Hrun. apply send_each_booked in Hrun.
    destruct Hrun as [parts [Hbooked ->]]. simpl.
    destruct (booked_in_turn_shape _ _ _ _ _ Hbooked) as [Hlen Hall].
    rewrite <- Hlen. now apply concat_length_nonempty.
Qed.

(** The results so far only stand in front of what the loop adds. *)
Lemma send_each_accumulates (carrier : nat) (pickings : list picking) :
  forall (res : list shipping_result) (st : store H),
    send_each carrier pickings res st
    = (fst (send_each carrier pickings [] st),
       result_map (app res) (snd (send_each carrier pickings [] st))).
Proof.
  induction pickings as [| p rest IH]; intros res st; simpl.
  - now rewrite app_nil_r.
  - destruct (scan_children carrier p
                (List.filter (same_company p) (child_ids (carriers carrier))) st)
      as [st1 [picking_res | e | b]]; try reflexivity.
    destruct (no_result picking_res); [reflexivity |].
    rewrite (IH (res ++ _)), (IH (match picking_res with Some l => l | None => [] end)).
    simpl.
    destruct (snd (send_each carrier rest [] st1)) as [out | e | b]; simpl;
      try reflexivity.
    now rewrite app_assoc.
Qed.

(** A loop that fails on its first pickings fails the same way with more
    pickings behind them. *)
Lemma send_each_app_stops (carrier : nat) (pre : list picking) :
  forall (rest : list picking) (res : list shipping_result) (st st1 : store H)
         (r : result (list shipping_result)),
    send_each carrier pre res st = (st1, r) ->
    (forall out, r <> Return out) ->
    send_each carrier (pre ++ rest) res st = (st1, r).
Proof.
  induction pre as [| p pre IH]; intros rest res st st1 r Hpre Hnot; simpl in *.
  - injection Hpre as _ <-. now destruct (Hnot res).
  - destruct (scan_children carrier p
                (List.filter (same_company p) (child_ids (carriers carrier))) st)
      as [st2 [picking_res | e | b]]; try assumption.
    destruct (no_result picking_res); [assumption |].
    now apply IH.
Qed.

(** X15. Booking a batch is booking its parts one after the other.  When the
    first pickings are booked, the call on the whole batch ends as the call on
    the remaining pickings does from the store the first ones left, with the
    results of the first ones in front; when the call on the first pickings
    raises or is interrupted, so does the call on the whole batch, from the
    same store, and the remaining pickings are not looked at. *)
Theorem send_shipping_in_parts
    (self : nat) (pre rest : list picking) (st st1 : store H)
    (r : result (list shipping_result)) :
  destination_type (carriers self) <> Some one ->
  send_shipping [self] pre st = (st1, r) ->
  send_shipping [self] (pre ++ rest) st
  = match r with
    | Return res1 =>
        (fst (send_shipping [self] rest st1),
         result_map (app res1) (snd (send_shipping [self] rest st1)))
    | _ => (st1, r)
    end.
Proof.
  intros Hdest Hpre.
  rewrite !(send_shipping_routes _ _ _ Hdest) in *.
  destruct r as [res1 | e | b].
  - rewrite (send_each_app _ _ _ _ _ _ _ Hpre).
    apply send_each_accumulates.
  - apply (send_each_app_stops _ _ _ _ _ _ _ Hpre). discriminate.
  - apply (send_each_app_stops _ _ _ _ _ _ _ Hpre). discriminate.
Qed.




(** X17. When the first candidate of a picking is a child that is not
    fixed-price and whose inherited booking raises, and the next one is a
    fixed-price child that delivers to the recipient, the picking is booked at
    that child's fixed price: the failure is not reported, and the picking
    points to the parent. *)
Theorem failed_booking_falls_back
    (self : nat) (p : picking) (sub f : nat) (post : list nat)
    (st st1 : store H) (e : exception) :
  destination_type (carriers self) <> Some one ->
  candidates_for self p = sub :: f :: post ->
  String.eqb (delivery_type (carriers sub)) "fixed" = false ->
  super_send_shipping [sub] [p] (set_carrier_id p sub st) = (st1, Raise e) ->
  delivery_type (carriers f) = "fixed" ->
  _match_address f (partner_id p) = true ->
  send_shipping [self] [p] st
  = (set_carrier_id p self st1, Return (fixed_result f)).
Proof.
  intros Hdest Hsubs Hkind Hcall Hfixed Hmatch.
  rewrite (send_shipping_routes _ _ _ Hdest). simpl.
  unfold candidates_for in Hsubs. rewrite Hsubs. simpl.
  rewrite Hkind, (attempt_outcome _ _ _ _ _ _ Hcall), Hfixed, Hmatch.
  reflexivity.
Qed.

End MoreShipping.

(** *** The further booking properties on the example databases *)

(** X12 on grid 60: its only child is restricted to company 2, the picking
    belongs to company 1. *)
Lemma no_candidate_no_rule_witness :
  @send_shipping nat Q example_host2 [60] [example_picking] example_store
  = (example_store, Raise no_matching_rule).
Proof.
  apply (@no_candidate_no_rule nat Q example_host2 60 example_picking []
           example_store).
  - discriminate.
  - intros x [<- | []]. reflexivity.
Defined.

(** X13 on grid 30, whose children are fixed-price, with two pickings. *)
Lemma fixed_grid_keeps_store_witness :
  fst (@send_shipping nat Q example_host [30] [example_picking; example_picking2]
         (example_store_with 30))
  = example_store_with 30.
Proof.
  apply (@fixed_grid_keeps_store nat Q example_host 30
           [example_picking; example_picking2] (example_store_with 30)).
  - discriminate.
  - intros x [<- | [<- | []]]; reflexivity.
Defined.

(** X14 on grid 1 with two pickings, both booked through child 2: the result
    is made of two lists, one per picking, booked in turn. *)
Lemma send_shipping_result_per_picking_witness :
  exists parts : list (list shipping_result),
    @booked_in_turn nat Q example_host 1 [example_picking; example_picking2]
      example_store {| picking_carrier := {[ 7 := 1; 8 := 1 ]}; host := 2 |} parts
    /\ [ {| exact_price := 11; tracking_number := Some "T2" |};
         {| exact_price := 11; tracking_number := Some "T2" |} ]
       = concat parts.
Proof.
  apply (proj1 (proj1 (@send_shipping_result_per_picking nat Q example_host 1
                         [example_picking; example_picking2] example_store
                         {| picking_carrier := {[ 7 := 1; 8 := 1 ]}; host := 2 |}
                         [ {| exact_price := 11; tracking_number := Some "T2" |};
                           {| exact_price := 11; tracking_number := Some "T2" |} ]
                         ltac:(discriminate)))).
  vm_compute. reflexivity.
Defined.

(** X15 on grid 1: the two pickings at once, or one after the other. *)
Lemma send_shipping_in_parts_witness :
  @send_shipping nat Q example_host [1] [example_picking; example_picking2]
    example_store
  = ({| picking_carrier := {[ 7 := 1; 8 := 1 ]}; host := 2 |},
     Return [ {| exact_price := 11; tracking_number := Some "T2" |};
              {| exact_price := 11; tracking_number := Some "T2" |} ]).
Proof.
  refine (eq_trans
    (@send_shipping_in_parts nat Q example_host 1
       [example_picking] [example_picking2] example_store
       {| picking_carrier := {[ 7 := 1 ]}; host := 1 |}
       (Return [ {| exact_price := 11; tracking_number := Some "T2" |} ])
       _ _) _).
  - discriminate.
  - vm_compute. reflexivity.
  - vm_compute. reflexivity.
Defined.


(** X17 on grid 70: the booking of child 21 fails, child 31 is fixed-price. *)
Lemma failed_booking_falls_back_witness :
  @send_shipping nat Q example_host2 [70] [example_picking] example_store
  = ({| picking_carrier := {[ 7 := 70 ]}; host := 1 |},
     Return [ {| exact_price := 7; tracking_number := None |} ]).
Proof.
  refine (eq_trans
    (@failed_booking_falls_back nat Q example_host2 70 example_picking 21 31 []
       example_store {| picking_carrier := {[ 7 := 21 ]}; host := 1 |}
       (UserError "No price rule matching this order.") _ _ _ _ _ _) _).
  - discriminate.
  - reflexivity.
  - reflexivity.
  - vm_compute. reflexivity.
  - reflexivity.
  - reflexivity.
  - vm_compute. reflexivity.
Defined.
